(** * The site geo DAO over Redis (site.dao.redis-implementation)

    A shallow embedding of the site data-access object: the record codec
    ([remap], [flatten]) and the five operations [insert], [findById],
    [findAll], [findByGeo] and [findByGeoWithExcessCapacity], run against a
    model of the Redis commands they issue.

    Conventions of the model.
    - A JavaScript number is identified with the decimal that
      Number::toString prints for it (sign, significant digits, position of
      the decimal point); binary rounding and negative zero are not
      modelled.
    - A JavaScript object is the finite map of its own enumerable
      properties, and no value is a function.  Of the members of
      Object.prototype the module calls hasOwnProperty only; an own
      property of that name hides it, and the call throws.  The string of
      an object is always [object Object]: objects with a toString of
      their own are not modelled.
    - Strings are byte strings; only ASCII white space and ASCII letter
      case are modelled.
    - Sorted-set scores are rationals. *)

From Stdlib Require Import ZArith QArith Ascii String List Decimal DecimalN.
From stdpp Require Import base option list strings gmap sorting.

Local Open Scope Z_scope.

(** ** Decimal digits and characters *)

Module Digits.

Inductive digit := D0 | D1 | D2 | D3 | D4 | D5 | D6 | D7 | D8 | D9.

#[global] Instance digit_eq_dec : EqDecision digit.
Proof. solve_decision. Defined.

Definition to_ascii (d : digit) : ascii :=
  match d with
  | D0 => "0" | D1 => "1" | D2 => "2" | D3 => "3" | D4 => "4"
  | D5 => "5" | D6 => "6" | D7 => "7" | D8 => "8" | D9 => "9"
  end%char.

Definition of_ascii (c : ascii) : option digit :=
  if Ascii.eqb c "0" then Some D0 else if Ascii.eqb c "1" then Some D1
  else if Ascii.eqb c "2" then Some D2 else if Ascii.eqb c "3" then Some D3
  else if Ascii.eqb c "4" then Some D4 else if Ascii.eqb c "5" then Some D5
  else if Ascii.eqb c "6" then Some D6 else if Ascii.eqb c "7" then Some D7
  else if Ascii.eqb c "8" then Some D8 else if Ascii.eqb c "9" then Some D9
  else None.

Definition chars (ds : list digit) : list ascii := to_ascii <$> ds.

Definition is_zero (d : digit) : bool :=
  match d with D0 => true | _ => false end.

(** The longest prefix of decimal digits of a character sequence, and what
    follows it. *)
Fixpoint span (s : list ascii) : list digit * list ascii :=
  match s with
  | [] => ([], [])
  | c :: r =>
      match of_ascii c with
      | Some d => let (ds, rest) := span r in (d :: ds, rest)
      | None => ([], s)
      end
  end.

Fixpoint strip_leading (ds : list digit) : list digit :=
  match ds with
  | D0 :: r => strip_leading r
  | _ => ds
  end.

Definition strip_trailing (ds : list digit) : list digit :=
  reverse (strip_leading (reverse ds)).

(** Bridge to the Standard Library's decimal numerals, used for exponents
    and array indices. *)
Fixpoint of_uint (u : Decimal.uint) : list digit :=
  match u with
  | Nil => []
  | Decimal.D0 u => D0 :: of_uint u | Decimal.D1 u => D1 :: of_uint u
  | Decimal.D2 u => D2 :: of_uint u | Decimal.D3 u => D3 :: of_uint u
  | Decimal.D4 u => D4 :: of_uint u | Decimal.D5 u => D5 :: of_uint u
  | Decimal.D6 u => D6 :: of_uint u | Decimal.D7 u => D7 :: of_uint u
  | Decimal.D8 u => D8 :: of_uint u | Decimal.D9 u => D9 :: of_uint u
  end.

Fixpoint to_uint (ds : list digit) : Decimal.uint :=
  match ds with
  | [] => Nil
  | D0 :: r => Decimal.D0 (to_uint r) | D1 :: r => Decimal.D1 (to_uint r)
  | D2 :: r => Decimal.D2 (to_uint r) | D3 :: r => Decimal.D3 (to_uint r)
  | D4 :: r => Decimal.D4 (to_uint r) | D5 :: r => Decimal.D5 (to_uint r)
  | D6 :: r => Decimal.D6 (to_uint r) | D7 :: r => Decimal.D7 (to_uint r)
  | D8 :: r => Decimal.D8 (to_uint r) | D9 :: r => Decimal.D9 (to_uint r)
  end.

Definition of_N (n : N) : list digit := of_uint (N.to_uint n).
Definition to_N (ds : list digit) : N := N.of_uint (to_uint ds).

End Digits.

(** ** JavaScript numbers *)

(** [Finite neg ds p] is the number whose significant digits are [ds] and
    whose decimal point stands [p] places to the right of the first digit's
    left edge: 0.d1d2...dk * 10^p, negated when [neg].  These are the
    quantities s, k and n of Number::toString. *)
Inductive number :=
  | NaN
  | Infinity (negative : bool)
  | Zero
  | Finite (negative : bool) (digits : list Digits.digit) (point : Z).

Module Number.
Import Digits.

(** The representation is canonical when the digit string is non-empty and
    has neither a leading nor a trailing zero. *)
Definition canonical (x : number) : bool :=
  match x with
  | Finite _ ds _ =>
      match ds with
      | [] => false
      | d :: _ => negb (is_zero d) && bool_decide (last ds ≠ Some D0)
      end
  | _ => true
  end.

(** An integer that Number::toString prints without an exponent, that is
    of magnitude below 10^21. *)
Definition plain_integer (x : number) : bool :=
  match x with
  | Zero => true
  | Finite _ ds p => (Z.of_nat (length ds) <=? p) && (p <=? 21)
  | _ => false
  end.

Definition sign_chars (neg : bool) : list ascii :=
  if neg then ["-"%char] else [].

(** Number::toString, radix 10. *)
Definition to_chars (x : number) : list ascii :=
  match x with
  | NaN => list_ascii_of_string "NaN"
  | Zero => ["0"%char]
  | Infinity neg => sign_chars neg ++ list_ascii_of_string "Infinity"
  | Finite neg ds n =>
      let k := Z.of_nat (length ds) in
      sign_chars neg ++
      if (k <=? n) && (n <=? 21) then
        chars ds ++ replicate (Z.to_nat (n - k)) "0"%char
      else if (0 <? n) && (n <=? 21) then
        chars (take (Z.to_nat n) ds) ++ "."%char :: chars (drop (Z.to_nat n) ds)
      else if (-6 <? n) && (n <=? 0) then
        "0"%char :: "."%char :: replicate (Z.to_nat (- n)) "0"%char ++ chars ds
      else
        let e := n - 1 in
        match ds with
        | [] => []
        | [d] => [to_ascii d]
        | d :: rest => to_ascii d :: "."%char :: chars rest
        end ++
        "e"%char :: (if 0 <=? e then "+"%char else "-"%char)
                 :: chars (of_N (Z.abs_N e))
  end.

Definition to_string (x : number) : string :=
  string_of_list_ascii (to_chars x).

(** White space skipped by parseInt and parseFloat (TrimString, start). *)
Definition is_space (c : ascii) : bool :=
  let n := N_of_ascii c in
  ((9 <=? n) && (n <=? 13) || (n =? 32))%N.

Fixpoint trim_start (s : list ascii) : list ascii :=
  match s with
  | c :: r => if is_space c then trim_start r else s
  | [] => []
  end.

Definition read_sign (s : list ascii) : bool * list ascii :=
  match s with
  | c :: r =>
      if Ascii.eqb c "-" then (true, r)
      else if Ascii.eqb c "+" then (false, r)
      else (false, s)
  | [] => (false, [])
  end.

(** The number denoted by the digits [ds] with the decimal point [p]
    places to the right of their left edge. *)
Definition normalize (neg : bool) (ds : list digit) (p : Z) : number :=
  let ds' := strip_leading ds in
  match ds' with
  | [] => Zero
  | _ => Finite neg (strip_trailing ds')
                (p - (Z.of_nat (length ds) - Z.of_nat (length ds')))
  end.

(** parseInt(string, 10). *)
Definition parse_int_chars (s : list ascii) : number :=
  let (neg, r) := read_sign (trim_start s) in
  let (ds, _) := span r in
  match ds with
  | [] => NaN
  | _ => normalize neg ds (Z.of_nat (length ds))
  end.

Fixpoint starts_with (p s : list ascii) : bool :=
  match p, s with
  | [], _ => true
  | a :: p', b :: s' => Ascii.eqb a b && starts_with p' s'
  | _ :: _, [] => false
  end.

(** The optional ExponentPart of a decimal literal: its value, zero when
    there is none. *)
Definition read_exponent (s : list ascii) : Z :=
  match s with
  | c :: r =>
      if Ascii.eqb c "e" || Ascii.eqb c "E" then
        let (neg, r') := read_sign r in
        let (ds, _) := span r' in
        match ds with
        | [] => 0
        | _ => if neg then - Z.of_N (to_N ds) else Z.of_N (to_N ds)
        end
      else 0
  | [] => 0
  end.

(** StrUnsignedDecimalLiteral, after the sign: integer digits, an optional
    fraction, an optional exponent.  A lone point is not a literal. *)
Definition parse_decimal (neg : bool) (r : list ascii) : number :=
  let (int_ds, r1) := span r in
  let (frac_ds, r2) :=
    match r1 with
    | c :: r1' =>
        if Ascii.eqb c "." then
          let (fs, r2) := span r1' in
          match int_ds, fs with
          | [], [] => ([], r1)
          | _, _ => (fs, r2)
          end
        else ([], r1)
    | [] => ([], r1)
    end in
  match int_ds ++ frac_ds with
  | [] => NaN
  | ds => normalize neg ds (Z.of_nat (length int_ds) + read_exponent r2)
  end.

(** parseFloat(string): the longest prefix that is a StrDecimalLiteral. *)
Definition parse_float_chars (s : list ascii) : number :=
  let (neg, r) := read_sign (trim_start s) in
  if starts_with (list_ascii_of_string "Infinity") r then Infinity neg
  else parse_decimal neg r.

Definition parseInt (s : string) : number :=
  parse_int_chars (list_ascii_of_string s).

(** The number that an integer is. *)
Definition of_Z (n : Z) : number :=
  let ds := of_N (Z.abs_N n) in
  normalize (n <? 0) ds (Z.of_nat (length ds)).

Definition parseFloat (s : string) : number :=
  parse_float_chars (list_ascii_of_string s).

End Number.

(** ** JavaScript values, objects and exceptions *)

#[warnings="-register-all"]
Inductive value :=
  | VUndefined
  | VNull
  | VNum (x : number)
  | VStr (s : string)
  | VObj (props : gmap string value).

Inductive error :=
  | TypeError (message : string)
  | PlainError (message : string)
  | ReplyError (code : string) (command : string).

(** The outcome of a call: a value, or a thrown exception (a rejected
    promise when the call is asynchronous). *)
Inductive result (A : Type) :=
  | Return (a : A)
  | Throw (e : error).
Arguments Return {A} a.
Arguments Throw {A} e.

Definition result_bind {A B} (r : result A) (k : A → result B) : result B :=
  match r with
  | Return a => k a
  | Throw e => Throw e
  end.

Declare Scope js_scope.
Delimit Scope js_scope with js.
Notation "'let?' x ':=' r 'in' k" := (result_bind r (λ x, k))
  (at level 10, x pattern, r at level 100, k at level 200) : js_scope.

Module Js.

Definition index_name (i : nat) : string :=
  string_of_list_ascii (Digits.chars (Digits.of_N (N.of_nat i))).

Definition index_props (items : list value) : gmap string value :=
  list_to_map (imap (λ i v, (index_name i, v)) items).

(** The own enumerable properties of a value, as object spread copies
    them: [{ ...v }]. *)
Definition own_enumerable (v : value) : gmap string value :=
  match v with
  | VObj o => o
  | VStr s => index_props ((λ c, VStr (String c EmptyString))
                             <$> list_ascii_of_string s)
  | _ => ∅
  end.

(** What the call of a value that is no function throws; no value of this
    model is a function. *)
Definition not_a_function (name : string) : error :=
  TypeError (name +:+ " is not a function").

(** The method call [v.hasOwnProperty(name)], for the names this module asks
    about (none of them is [length]).  The method is looked up on the value
    itself first: an own property called [hasOwnProperty] hides the one of
    [Object.prototype], and calling it throws. *)
Definition has_own_property (v : value) (name : string) : result bool :=
  match v with
  | VUndefined | VNull =>
      Throw (TypeError "Cannot read properties of null or undefined")
  | _ =>
      match own_enumerable v !! "hasOwnProperty" with
      | Some _ => Throw (not_a_function "hasOwnProperty")
      | None => Return (bool_decide (is_Some (own_enumerable v !! name)))
      end
  end.

(** A value that is no object. *)
Definition primitive (v : value) : bool :=
  match v with
  | VObj _ => false
  | _ => true
  end.

(** The member access [v.name], for the names this module reads. *)
Definition get (v : value) (name : string) : result value :=
  match v with
  | VUndefined | VNull =>
      Throw (TypeError "Cannot read properties of null or undefined")
  | _ => Return (default VUndefined (own_enumerable v !! name))
  end.

(** ToString, which is also how the Redis client turns a command argument
    into the string it sends. *)
Definition ToString (v : value) : string :=
  match v with
  | VUndefined => "undefined"
  | VNull => "null"
  | VNum x => Number.to_string x
  | VStr s => s
  | VObj _ => "[object Object]"
  end.

Definition parseInt (v : value) : value := VNum (Number.parseInt (ToString v)).
Definition parseFloat (v : value) : value := VNum (Number.parseFloat (ToString v)).

(** ToBoolean, as the condition of [if (v)]. *)
Definition truthy (v : value) : bool :=
  match v with
  | VUndefined | VNull => false
  | VNum NaN | VNum Zero => false
  | VNum _ => true
  | VStr s => negb (String.eqb s EmptyString)
  | VObj _ => true
  end.

(** String.prototype.toLowerCase on ASCII letters. *)
Definition lower_char (c : ascii) : ascii :=
  let n := N_of_ascii c in
  if ((65 <=? n) && (n <=? 90))%N then ascii_of_N (n + 32) else c.

Fixpoint toLowerCase (s : string) : string :=
  match s with
  | EmptyString => EmptyString
  | String c r => String (lower_char c) (toLowerCase r)
  end.

End Js.

(** ** The site record codec *)

Local Open Scope js_scope.

(** [remap]: from the flat key/value object of a Redis hash to the shape of
    a site domain object. *)
Definition remap (siteHash : value) : result value :=
  let remappedSiteHash := Js.own_enumerable siteHash in
  let? id := Js.get siteHash "id" in
  let remappedSiteHash := <["id" := Js.parseInt id]> remappedSiteHash in
  let? panels := Js.get siteHash "panels" in
  let remappedSiteHash := <["panels" := Js.parseInt panels]> remappedSiteHash in
  let? capacity := Js.get siteHash "capacity" in
  let remappedSiteHash :=
    <["capacity" := Js.parseFloat capacity]> remappedSiteHash in
  let? hasLat := Js.has_own_property siteHash "lat" in
  let? hasBoth :=
    if hasLat then Js.has_own_property siteHash "lng" else Return false in
  if hasBoth then
    let? lat := Js.get siteHash "lat" in
    let? lng := Js.get siteHash "lng" in
    let remappedSiteHash :=
      <["coordinate" := VObj (<["lat" := Js.parseFloat lat]>
                              (<["lng" := Js.parseFloat lng]> ∅))]>
        remappedSiteHash in
    let remappedSiteHash := delete "lat" remappedSiteHash in
    let remappedSiteHash := delete "lng" remappedSiteHash in
    Return (VObj remappedSiteHash)
  else
    Return (VObj remappedSiteHash).

(** [flatten]: from a site domain object to a flat set of key/value pairs
    suitable for a Redis hash. *)
Definition flatten (site : gmap string value) : result (gmap string value) :=
  let flattenedSite := site in
  let? hasCoordinate := Js.has_own_property (VObj flattenedSite) "coordinate" in
  if hasCoordinate then
    let? coordinate := Js.get (VObj flattenedSite) "coordinate" in
    let? lat := Js.get coordinate "lat" in
    let flattenedSite := <["lat" := lat]> flattenedSite in
    let? coordinate := Js.get (VObj flattenedSite) "coordinate" in
    let? lng := Js.get coordinate "lng" in
    let flattenedSite := <["lng" := lng]> flattenedSite in
    Return (delete "coordinate" flattenedSite)
  else Return flattenedSite.


(** ** The Redis store *)

(** A key holds a hash (field to string) or a sorted set (member to score);
    the geo index is a sorted set whose scores are geohashes. *)
Inductive entry :=
  | RHash (fields : gmap string string)
  | RZSet (members : gmap string Q).

(** The keyspace, and the time to live (seconds) of the keys that have
    one.  The passing of time is not modelled. *)
Record store := Store {
  db : gmap string entry;
  expires : gmap string Z;
}.

(** The geo commands of the server: the score under which a position is
    indexed ([None]: the pair is rejected), and, for a centre, a radius and
    a unit as sent by the client, which indexed scores lie within the
    radius ([None]: the arguments are rejected). *)
Class GeoIndex := {
  geoEncode : string → string → option Q;
  geoWithin : string → string → string → string → option (Q → bool);
}.

Module Redis.

Definition wrong_type (command : string) : error :=
  ReplyError "WRONGTYPE" command.

Definition read_hash (command key : string) (st : store)
    : result (gmap string string) :=
  match db st !! key with
  | None => Return ∅
  | Some (RHash h) => Return h
  | Some (RZSet _) => Throw (wrong_type command)
  end.

Definition read_zset (command key : string) (st : store)
    : result (gmap string Q) :=
  match db st !! key with
  | None => Return ∅
  | Some (RZSet z) => Return z
  | Some (RHash _) => Throw (wrong_type command)
  end.

Definition is_empty {A} (m : gmap string A) : bool :=
  bool_decide (size m = 0%nat).

(** Writing a member or a field keeps the key's time to live. *)
Definition update_key (key : string) (e : entry) (st : store) : store :=
  Store (<[key := e]> (db st)) (expires st).

(** Storing the result of a set operation replaces whatever the
    destination held, time to live included; an empty result leaves no
    key. *)
Definition store_zset (key : string) (z : gmap string Q) (st : store) : store :=
  Store (if is_empty z then delete key (db st) else <[key := RZSet z]> (db st))
        (delete key (expires st)).

(** Sorted-set order: by score, then by member. *)
Definition entry_leb (a b : string * Q) : bool :=
  match (a.2 ?= b.2)%Q with
  | Lt => true
  | Gt => false
  | Eq => String.leb a.1 b.1
  end.

Definition ranked (z : gmap string Q) : list (string * Q) :=
  merge_sort (λ a b, Is_true (entry_leb a b)) (map_to_list z).

(** The elements of rank [start] to [stop], negative ranks counting from
    the end. *)
Definition rank_range {A} (start stop : Z) (l : list A) : list A :=
  let len := Z.of_nat (length l) in
  let start := if start <? 0 then Z.max 0 (len + start) else start in
  let stop := if stop <? 0 then len + stop else stop in
  if (stop <? start) || (len <=? start) then []
  else
    let stop := Z.min stop (len - 1) in
    take (Z.to_nat (stop - start + 1)) (drop (Z.to_nat start) l).

(** HMSET key field value ... *)
Definition hmset (key : string) (fields : gmap string string) (st : store)
    : result string * store :=
  if is_empty fields then (Throw (ReplyError "ERR" "HMSET"), st)
  else
    match read_hash "HMSET" key st with
    | Return h => (Return "OK", update_key key (RHash (fields ∪ h)) st)
    | Throw e => (Throw e, st)
    end.

(** HGETALL key, as the client hands it over: no object at all when the
    hash has no field. *)
Definition hgetall (key : string) (st : store)
    : result (option (gmap string string)) :=
  match read_hash "HGETALL" key st with
  | Return h => Return (if is_empty h then None else Some h)
  | Throw e => Throw e
  end.

(** GEOADD key longitude latitude member *)
Definition geoadd `{GeoIndex} (key lng lat member : string) (st : store)
    : result Z * store :=
  match geoEncode lng lat with
  | None => (Throw (ReplyError "ERR" "GEOADD"), st)
  | Some score =>
      match read_zset "GEOADD" key st with
      | Return z =>
          (Return (match z !! member with Some _ => 0 | None => 1 end),
           update_key key (RZSet (<[member := score]> z)) st)
      | Throw e => (Throw e, st)
      end
  end.

(** ZRANGE key start stop *)
Definition zrange (key : string) (start stop : Z) (st : store)
    : result (list string) :=
  match read_zset "ZRANGE" key st with
  | Return z => Return (rank_range start stop (ranked z).*1)
  | Throw e => Throw e
  end.

(** ZRANGEBYSCORE key min +inf *)
Definition zrangebyscore (key : string) (min : Q) (st : store)
    : result (list string) :=
  match read_zset "ZRANGEBYSCORE" key st with
  | Return z =>
      Return (filter (λ e, Is_true (Qle_bool min e.2)) (ranked z)).*1
  | Throw e => Throw e
  end.

(** The members of the geo index at [key] within the radius. *)
Definition in_radius `{GeoIndex} (key lng lat radius unit : string)
    (st : store) : result (gmap string Q) :=
  match read_zset "GEORADIUS" key st with
  | Return z =>
      match geoWithin lng lat radius unit with
      | Some within => Return (filter (λ e, Is_true (within e.2)) z)
      | None => Throw (ReplyError "ERR" "GEORADIUS")
      end
  | Throw e => Throw e
  end.

(** GEORADIUS key longitude latitude radius unit *)
Definition georadius `{GeoIndex} (key lng lat radius unit : string)
    (st : store) : result (list string) :=
  match in_radius key lng lat radius unit st with
  | Return z => Return (ranked z).*1
  | Throw e => Throw e
  end.

(** GEORADIUS key longitude latitude radius unit STORE destination *)
Definition georadius_store `{GeoIndex} (key lng lat radius unit dst : string)
    (st : store) : result Z * store :=
  match in_radius key lng lat radius unit st with
  | Return z => (Return (Z.of_nat (size z)), store_zset dst z st)
  | Throw e => (Throw e, st)
  end.

(** ZINTERSTORE destination 2 key1 key2 WEIGHTS w1 w2 *)
Definition zinterstore (dst key1 key2 : string) (w1 w2 : Q) (st : store)
    : result Z * store :=
  match read_zset "ZINTERSTORE" key1 st, read_zset "ZINTERSTORE" key2 st with
  | Return z1, Return z2 =>
      let z := intersection_with (λ s1 s2, Some (w1 * s1 + w2 * s2)%Q) z1 z2 in
      (Return (Z.of_nat (size z)), store_zset dst z st)
  | Throw e, _ | _, Throw e => (Throw e, st)
  end.

(** EXPIRE key seconds *)
Definition expire (key : string) (seconds : Z) (st : store)
    : result Z * store :=
  match db st !! key with
  | None => (Return 0, st)
  | Some _ =>
      if seconds <=? 0
      then (Return 1, Store (delete key (db st)) (delete key (expires st)))
      else (Return 1, Store (db st) (<[key := seconds]> (expires st)))
  end.

End Redis.


(** ** The key generator *)

(** Modelled from the spec: the key namespace provider
    (redis-key-generator), whose source is not in the repository.  It maps
    a logical key type, and for site hashes the site id as it appears in
    the key, to a store key; [temporaryKey n] is the name that the call
    number [n] of [getTemporaryKey] returns. *)
Class KeyGenerator := {
  getSiteHashKey : string → string;
  getSiteGeoKey : string;
  getCapacityRankingKey : string;
  temporaryKey : nat → string;
}.

(** Modelled from the spec: what the key namespace provider guarantees.
    Every call of [getTemporaryKey] gives another name, the key of a site
    hash determines the site id, and keys of different kinds never
    coincide. *)
Class KeyGeneratorLaws `{KeyGenerator} : Prop := {
  site_hash_key_inj : Inj (=) (=) getSiteHashKey;
  temporary_key_inj : Inj (=) (=) temporaryKey;
  site_hash_key_not_geo id : getSiteHashKey id ≠ getSiteGeoKey;
  site_hash_key_not_ranking id : getSiteHashKey id ≠ getCapacityRankingKey;
  site_hash_key_not_temporary id n : getSiteHashKey id ≠ temporaryKey n;
  geo_key_not_ranking : getSiteGeoKey ≠ getCapacityRankingKey;
  geo_key_not_temporary n : getSiteGeoKey ≠ temporaryKey n;
  ranking_key_not_temporary n : getCapacityRankingKey ≠ temporaryKey n;
}.

(** ** The client *)

(** What a call sees and changes: the store behind the connection, and how
    many temporary keys the key generator has handed out. *)
Record world := World {
  redis : store;
  generated : nat;
}.

(** An asynchronous call, awaited: it runs to its result or to the
    exception it is rejected with, and leaves the world as changed up to
    there.  Calls of other clients in between are not modelled. *)
Definition async (A : Type) : Type := world → result A * world.

Definition resolve {A} (a : A) : async A := λ w, (Return a, w).
Definition reject {A} (e : error) : async A := λ w, (Throw e, w).

Definition await {A B} (c : async A) (k : A → async B) : async B :=
  λ w, match c w with
       | (Return a, w') => k a w'
       | (Throw e, w') => (Throw e, w')
       end.

(** A synchronous computation inside an async function. *)
Definition sync {A} (r : result A) : async A := λ w, (r, w).

Notation "'let!' x ':=' c 'in' k" := (await c (λ x, k))
  (at level 10, x pattern, c at level 100, k at level 200) : js_scope.

Definition on_store {A} (f : store → result A * store) : async A :=
  λ w, let (r, st) := f (redis w) in (r, World st (generated w)).

Definition read_store {A} (f : store → result A) : async A :=
  λ w, (f (redis w), w).

(** The commands that this module queues on a batch. *)
Inductive command :=
  | HGETALL (key : string)
  | GEORADIUS_STORE (key lng lat radius unit dst : string)
  | ZINTERSTORE (dst key1 key2 : string) (w1 w2 : Q)
  | EXPIRE (key : string) (seconds : Z).

Section Client.
Context `{GeoIndex}.

(** The object that the client makes of an HGETALL reply: it assigns every
    field to a new plain object.  Assigning a string to [__proto__] leaves a
    plain object as it is, so a field of that name does not show. *)
Definition hash_object (reply : option (gmap string string)) : value :=
  match reply with
  | None => VNull
  | Some h => VObj (VStr <$> delete "__proto__" h)
  end.

Definition hmsetAsync (key : string) (obj : gmap string value) : async string :=
  on_store (Redis.hmset key (Js.ToString <$> obj)).

Definition geoaddAsync (key : string) (lng lat member : value) : async Z :=
  on_store (Redis.geoadd key (Js.ToString lng) (Js.ToString lat)
                         (Js.ToString member)).

Definition hgetallAsync (key : string) : async value :=
  read_store (λ st, let? reply := Redis.hgetall key st in
                    Return (hash_object reply)).

Definition zrangeAsync (key : string) (start stop : Z) : async (list string) :=
  read_store (Redis.zrange key start stop).

Definition zrangebyscoreAsync (key : string) (min : Q) : async (list string) :=
  read_store (Redis.zrangebyscore key min).

Definition georadiusAsync (key : string) (lng lat radius : number)
    (unit : string) : async (list string) :=
  read_store (Redis.georadius key (Number.to_string lng) (Number.to_string lat)
                              (Number.to_string radius) unit).

Definition integer_reply (r : result Z * store) : result value * store :=
  (let? n := r.1 in Return (VNum (Number.of_Z n)), r.2).

Definition exec_command (c : command) (st : store) : result value * store :=
  match c with
  | HGETALL key =>
      (let? reply := Redis.hgetall key st in Return (hash_object reply), st)
  | GEORADIUS_STORE key lng lat radius unit dst =>
      integer_reply (Redis.georadius_store key lng lat radius unit dst st)
  | ZINTERSTORE dst key1 key2 w1 w2 =>
      integer_reply (Redis.zinterstore dst key1 key2 w1 w2 st)
  | EXPIRE key seconds => integer_reply (Redis.expire key seconds st)
  end.

(** The error object that stands in a batch's results for a command that
    failed (its [args] property is left out). *)
Definition error_object (e : error) (position : nat) : value :=
  match e with
  | ReplyError code command =>
      VObj (<["command" := VStr command]>
            (<["code" := VStr code]>
             (<["position" := VNum (Number.of_Z (Z.of_nat position))]> ∅)))
  | TypeError _ | PlainError _ => VObj ∅
  end.

(** A batch runs its commands in order; a command that fails does not stop
    the others, and the batch itself is never rejected. *)
Fixpoint exec_batch (position : nat) (queue : list command) (st : store)
    : list value * store :=
  match queue with
  | [] => ([], st)
  | c :: rest =>
      let (r, st') := exec_command c st in
      let (results, st'') := exec_batch (S position) rest st' in
      (match r with
       | Return v => v
       | Throw e => error_object e position
       end :: results, st'')
  end.

Definition execAsync (queue : list command) : async (list value) :=
  on_store (λ st, let (results, st') := exec_batch 0 queue st in
                  (Return results, st')).

End Client.

(** ** The data-access object *)

Section Dao.
Context `{KeyGenerator} `{GeoIndex}.

Definition getTemporaryKey : async string :=
  λ w, (Return (temporaryKey (generated w)),
        World (redis w) (S (generated w))).

(** Minimum amount of capacity that a site should have to be considered as
    having excess capacity: 0.2. *)
Definition capacityThreshold : Q := 2 # 10.

(** [site.name] of an object given by its properties. *)
Definition member (site : gmap string value) (name : string) : value :=
  default VUndefined (site !! name).

Definition insert (site : gmap string value) : async string :=
  let siteHashKey := getSiteHashKey (Js.ToString (member site "id")) in
  let! flat := sync (flatten site) in
  let! _ := hmsetAsync siteHashKey flat in
  let! hasCoordinate := sync (Js.has_own_property (VObj site) "coordinate") in
  if negb hasCoordinate then
    reject (PlainError "Coordinate required for site geo insert!")
  else
    let! lng := sync (Js.get (member site "coordinate") "lng") in
    let! lat := sync (Js.get (member site "coordinate") "lat") in
    let! _ := geoaddAsync getSiteGeoKey lng lat (member site "id") in
    resolve siteHashKey.

Definition findById (id : value) : async value :=
  let siteKey := getSiteHashKey (Js.ToString id) in
  let! siteHash := hgetallAsync siteKey in
  match siteHash with
  | VNull => resolve siteHash
  | _ => sync (remap siteHash)
  end.

(** The second loop of [findAll]: every truthy result is remapped. *)
Fixpoint remap_results (results : list value) : result (list value) :=
  match results with
  | [] => Return []
  | siteHash :: rest =>
      if Js.truthy siteHash then
        let? site := remap siteHash in
        let? sites := remap_results rest in
        Return (site :: sites)
      else remap_results rest
  end.

Definition findAll : async (list value) :=
  let! siteIds := zrangeAsync getSiteGeoKey 0 (-1) in
  let pipeline := (λ siteId, HGETALL (getSiteHashKey siteId)) <$> siteIds in
  let! results := execAsync pipeline in
  sync (remap_results results).

(** The loop that ends [findByGeo] and [findByGeoWithExcessCapacity]: one
    HGETALL per site id, in turn. *)
Fixpoint fetch_sites (siteIds : list string) : async (list value) :=
  match siteIds with
  | [] => resolve []
  | siteId :: rest =>
      let siteKey := getSiteHashKey siteId in
      let! siteHash := hgetallAsync siteKey in
      if Js.truthy siteHash then
        let! site := sync (remap siteHash) in
        let! sites := fetch_sites rest in
        resolve (site :: sites)
      else fetch_sites rest
  end.

Definition findByGeo (lat lng radius : number) (radiusUnit : string)
    : async (list value) :=
  let! siteIds :=
    georadiusAsync getSiteGeoKey lng lat radius (Js.toLowerCase radiusUnit) in
  fetch_sites siteIds.

Definition findByGeoWithExcessCapacity (lat lng radius : number)
    (radiusUnit : string) : async (list value) :=
  let! sitesInRadiusSortedSetKey := getTemporaryKey in
  let! sitesInRadiusCapacitySortedSetKey := getTemporaryKey in
  let setOperationsPipeline :=
    [ GEORADIUS_STORE getSiteGeoKey (Number.to_string lng)
        (Number.to_string lat) (Number.to_string radius)
        (Js.toLowerCase radiusUnit) sitesInRadiusSortedSetKey;
      ZINTERSTORE sitesInRadiusCapacitySortedSetKey
        sitesInRadiusSortedSetKey getCapacityRankingKey 0 1;
      EXPIRE sitesInRadiusSortedSetKey 30;
      EXPIRE sitesInRadiusCapacitySortedSetKey 30 ] in
  let! _ := execAsync setOperationsPipeline in
  let! siteIds :=
    zrangebyscoreAsync sitesInRadiusCapacitySortedSetKey capacityThreshold in
  fetch_sites siteIds.

End Dao.


(** Encoding a site, storing its fields as the strings the store keeps, and
    decoding the object that the client makes of them; and the same without
    the store in between. *)
Definition stored_fields (flat : gmap string value) : gmap string value :=
  VStr <$> delete "__proto__" (Js.ToString <$> flat).

Definition decode_stored (site : gmap string value) : result value :=
  let? flat := flatten site in
  remap (VObj (stored_fields flat)).

Definition decode_encoded (site : gmap string value) : result value :=
  let? flat := flatten site in
  remap (VObj flat).

(** A flat record: no value of it is an object. *)
Definition flat_record (o : gmap string value) : Prop :=
  ∀ name v, o !! name = Some v → Js.primitive v = true.

(** A site as the data model has it: a coordinate object [c] of latitude
    and longitude, no nested object elsewhere, and no property called
    hasOwnProperty. *)
Definition plain_site (site c : gmap string value) : Prop :=
  site !! "hasOwnProperty" = None ∧
  site !! "coordinate" = Some (VObj c) ∧
  Js.primitive (default VUndefined (c !! "lat")) = true ∧
  Js.primitive (default VUndefined (c !! "lng")) = true ∧
  ∀ name v, site !! name = Some v → name ≠ "coordinate" →
            Js.primitive v = true.

Section Views.
Context `{KeyGenerator} `{GeoIndex}.

(** The sorted set at a key, empty when the key holds none. *)
Definition zset_at (key : string) (st : store) : gmap string Q :=
  match db st !! key with
  | Some (RZSet z) => z
  | _ => ∅
  end.

Definition geo_index (st : store) : gmap string Q := zset_at getSiteGeoKey st.
Definition capacity_ranking (st : store) : gmap string Q :=
  zset_at getCapacityRankingKey st.

(** The decoded record of a site id, when the store has its hash. *)
Definition stored_site (st : store) (id : string) : option value :=
  match db st !! getSiteHashKey id with
  | Some (RHash h) =>
      if Redis.is_empty h then None
      else match remap (hash_object (Some h)) with
           | Return site => Some site
           | Throw _ => None
           end
  | _ => None
  end.

(** No site hash key holds a sorted set. *)
Definition site_keys_typed (st : store) : Prop :=
  ∀ id z, db st !! getSiteHashKey id ≠ Some (RZSet z).

(** No site hash has a field called [hasOwnProperty]. *)
Definition site_records_plain (st : store) : Prop :=
  ∀ id h, db st !! getSiteHashKey id = Some (RHash h) →
    h !! "hasOwnProperty" = None.

(** The site id is in the geo index within the radius of the point, and in
    the capacity ranking with a score of at least 0.2. *)
Definition has_excess_capacity_nearby (st : store) (lat lng radius : number)
    (unit : string) (id : string) : Prop :=
  ∃ within g s,
    geoWithin (Number.to_string lng) (Number.to_string lat)
              (Number.to_string radius) unit = Some within ∧
    geo_index st !! id = Some g ∧ within g = true ∧
    capacity_ranking st !! id = Some s ∧ (2 # 10 <= s)%Q.

(** Inserting sites one after the other. *)
Fixpoint insert_all (sites : list (gmap string value)) : async (list string) :=
  match sites with
  | [] => resolve []
  | site :: rest =>
      let! key := insert site in
      let! keys := insert_all rest in
      resolve (key :: keys)
  end.

Definition site_id (site : gmap string value) : string :=
  Js.ToString (member site "id").

End Views.

Definition empty_store : store := Store ∅ ∅.

(** ** A concrete key generator and geo index *)

Module Example.
Import Digits.

Definition keys : KeyGenerator := {|
  getSiteHashKey id := "sites:info:" +:+ id;
  getSiteGeoKey := "sites:geo";
  getCapacityRankingKey := "sites:capacity:ranking";
  temporaryKey n := "tmp:" +:+ Js.index_name n;
|}.

(** A geo index on a line: a position is indexed under the whole degrees
    of its longitude, between 0 and 9; the radius taken is ten units,
    whatever the arguments, of one of the units of Redis. *)
Definition geo : GeoIndex := {|
  geoEncode lng lat :=
    match list_ascii_of_string lng with
    | [c] => (λ d, inject_Z (Z.of_N (to_N [d]))) <$> of_ascii c
    | _ => None
    end;
  geoWithin lng lat radius unit :=
    if bool_decide (unit ∈ ["m"; "km"; "ft"; "mi"])
    then Some (λ g, Qle_bool g 10)
    else None;
|}.

Definition num (n : Z) : value := VNum (Number.of_Z n).

(** 4.5 *)
Definition four_and_a_half : value := VNum (Finite false [D4; D5] 1).

Definition site (id panels : Z) (lng lat : Z) : gmap string value :=
  <["id" := num id]> (<["panels" := num panels]>
  (<["capacity" := four_and_a_half]>
  (<["coordinate" := VObj (<["lat" := num lat]> (<["lng" := num lng]> ∅))]> ∅))).

Definition site_without_coordinate : gmap string value :=
  <["id" := num 1]> (<["panels" := num 100]>
  (<["capacity" := four_and_a_half]> ∅)).

(** 10^21 *)
Definition huge : value := VNum (Finite false [D1] 22).

Definition site_with_huge_id : gmap string value :=
  <["id" := huge]> (site 1 100 2 3).

Definition empty_world : world := World empty_store 0.

Definition hash_of (id panels : string) : entry :=
  RHash (<["id" := id]> (<["panels" := panels]> (<["capacity" := "4.5"]>
        (<["lat" := "3"]> (<["lng" := "2"]> ∅))))).

(** Three sites: 1 and 2 near the origin, 3 far from it; 1 and 3 have
    excess capacity, 2 has not. *)
Definition three_sites : store := Store
  (<["sites:geo" := RZSet (<["1" := 2%Q]> (<["2" := 3%Q]> (<["3" := 500%Q]> ∅)))]>
  (<["sites:capacity:ranking" :=
       RZSet (<["1" := 2 # 10]> (<["2" := 1 # 10]> (<["3" := 9 # 10]> ∅)))]>
  (<["sites:info:1" := hash_of "1" "100"]>
  (<["sites:info:2" := hash_of "2" "200"]>
  (<["sites:info:3" := hash_of "3" "300"]> ∅)))))
  ∅.

Definition w3 : world := World three_sites 0.
Definition ten : number := Number.of_Z 10.

End Example.


(** Two stores agree outside the keys [ks]: on what every other key holds
    and on its time to live. *)
Definition same_except (ks : list string) (st st' : store) : Prop :=
  ∀ k, k ∉ ks →
    db st' !! k = db st !! k ∧ expires st' !! k = expires st !! k.


Section DerivedSets.
Context `{KeyGenerator} `{GeoIndex}.

(** The members of the geo index within the radius, with their geohashes;
    none when the server rejects the query. *)
Definition within_radius (st : store) (lat lng radius : number) (unit : string)
    : gmap string Q :=
  match geoWithin (Number.to_string lng) (Number.to_string lat)
                  (Number.to_string radius) unit with
  | Some within => filter (λ e, Is_true (within e.2)) (geo_index st)
  | None => ∅
  end.

(** Its weighted intersection with the capacity ranking, weights 0 and 1. *)
Definition within_radius_ranked (st : store) (lat lng radius : number)
    (unit : string) : gmap string Q :=
  intersection_with (λ g s, Some (0 * g + 1 * s)%Q)
    (within_radius st lat lng radius unit) (capacity_ranking st).

(** The store after the batch of [findByGeoWithExcessCapacity], run with
    the temporary keys [t1] and [t2]. *)
Definition after_set_operations (t1 t2 : string) (lat lng radius : number)
    (unit : string) (st : store) : store :=
  let st1 := (Redis.georadius_store getSiteGeoKey (Number.to_string lng)
                (Number.to_string lat) (Number.to_string radius) unit t1 st).2 in
  let st2 := (Redis.zinterstore t2 t1 getCapacityRankingKey 0 1 st1).2 in
  let st3 := (Redis.expire t1 30 st2).2 in
  (Redis.expire t2 30 st3).2.

End DerivedSets.


Section MoreViews.
Context `{KeyGenerator} `{GeoIndex}.

(** The site ids that ZRANGEBYSCORE gives for the intersection: those of
    score at least the threshold, in sorted-set order. *)
Definition excess_capacity_ids (st : store) (lat lng radius : number)
    (unit : string) : list string :=
  (filter (λ e, Is_true (Qle_bool capacityThreshold e.2))
     (Redis.ranked (within_radius_ranked st lat lng radius unit))).*1.

(** None of the temporary keys still to be handed out is in the store. *)
Definition temporaries_fresh (w : world) : Prop :=
  ∀ n, (generated w ≤ n)%nat → db (redis w) !! temporaryKey n = None.

End MoreViews.

(** ** The logger (logger.util) *)

Module Logger.

(** What has been handed to the logger so far: level and message of every
    call, oldest first.  Formatting and transports are the logging
    library's. *)
Record line := Line {
  level : string;
  message : string;
}.

Definition info (message : string) (log : list line) : list line :=
  log ++ [Line "info" message].

(** [logger.stream.write], the sink of the request log. *)
Definition stream_write (message : string) (log : list line) : list line :=
  info (if (0 <? String.length message)%nat
        then String.substring 0 (String.length message - 1) message
        else message) log.

End Logger.

Module MoreExamples.
Import Example Digits.

(** [{ id: 1, panels: 100, capacity: 4.5, coordinate: null }] *)
Definition site_with_null_coordinate : gmap string value :=
  <["coordinate" := VNull]> site_without_coordinate.

(** A site whose longitude, 12, the example geo index rejects. *)
Definition site_off_the_line : gmap string value := site 1 100 12 3.

(** A site with the id of a stored one and no panels field. *)
Definition site_without_panels : gmap string value :=
  delete "panels" (site 1 999 5 3).

(** What is near in the example geo index. *)
Definition near (g : Q) : bool := Qle_bool g 10.

(** The three sites, the hash of site 1 having a field called
    hasOwnProperty as well. *)
Definition three_sites_one_shadowed : store := Store
  (<["sites:info:1" :=
       RHash (<["hasOwnProperty" := "x"]> (<["id" := "1"]>
             (<["panels" := "100"]> (<["capacity" := "4.5"]>
             (<["lat" := "3"]> (<["lng" := "2"]> ∅))))))]> (db three_sites))
  ∅.

(** The three sites, a sorted set standing where the hash of site 1 was. *)
Definition three_sites_one_mistyped : store := Store
  (<["sites:info:1" := RZSet (<["a" := 1%Q]> ∅)]> (db three_sites))
  ∅.

(** The three sites, and a sorted set that holds site 3 under the name of
    the first temporary key. *)
Definition three_sites_stale_temporary : store := Store
  (<["tmp:0" := RZSet (<["3" := 1%Q]> ∅)]> (db three_sites))
  ∅.

(** The three sites, a hash standing where the geo index was. *)
Definition three_sites_geo_mistyped : store := Store
  (<["sites:geo" := hash_of "0" "0"]> (db three_sites))
  ∅.

(** A site with a property called hasOwnProperty. *)
Definition site_with_shadow : gmap string value :=
  <["hasOwnProperty" := VStr "x"]> (site 1 100 2 3).

(** A flat record with a field called hasOwnProperty, and of lat and lng
    the first only. *)
Definition shadowed_record : gmap string value :=
  <["lat" := VStr "3"]> (<["hasOwnProperty" := VStr "x"]> ∅).

End MoreExamples.

(** * Properties *)

Module DigitsFacts.
Import Digits.

Lemma of_to_ascii d : of_ascii (to_ascii d) = Some d.
Proof. by destruct d. Qed.

Lemma span_chars ds s :
  span (chars ds ++ s) = (ds ++ (span s).1, (span s).2).
Proof.
  induction ds as [|d ds IH]; simpl.
  - by destruct (span s).
  - rewrite of_to_ascii. fold (chars ds). by rewrite IH.
Qed.

Lemma span_cons d s : span (to_ascii d :: s) = (d :: (span s).1, (span s).2).
Proof. apply (span_chars [d]). Qed.

Lemma span_chars_nil ds : span (chars ds) = (ds, []).
Proof.
  rewrite <- (app_nil_r (chars ds)), span_chars. simpl. by rewrite app_nil_r.
Qed.

Lemma span_stop c s : of_ascii c = None → span (c :: s) = ([], c :: s).
Proof. intros H. simpl. by rewrite H. Qed.

Lemma chars_replicate n : replicate n "0"%char = chars (replicate n D0).
Proof. unfold chars. by rewrite fmap_replicate. Qed.

Lemma strip_leading_zeros n ds :
  strip_leading (replicate n D0 ++ ds) = strip_leading ds.
Proof. induction n; simpl; auto. Qed.

Lemma strip_leading_id d ds :
  is_zero d = false → strip_leading (d :: ds) = d :: ds.
Proof. by destruct d. Qed.

Lemma strip_trailing_zeros ds n :
  last ds ≠ Some D0 → ds ≠ [] → strip_trailing (ds ++ replicate n D0) = ds.
Proof.
  intros Hl Hn. unfold strip_trailing.
  rewrite reverse_app, reverse_replicate, strip_leading_zeros.
  destruct (reverse ds) as [|d r] eqn:E.
  - apply (f_equal reverse) in E. rewrite reverse_involutive in E. by subst.
  - assert (ds = reverse r ++ [d]) as ->.
    { apply (f_equal reverse) in E. rewrite reverse_involutive in E.
      by rewrite E, reverse_cons. }
    rewrite last_snoc in Hl.
    rewrite strip_leading_id; [by rewrite reverse_cons|].
    destruct d; try done.
Qed.

Lemma strip_trailing_id ds :
  last ds ≠ Some D0 → ds ≠ [] → strip_trailing ds = ds.
Proof.
  intros. rewrite <- (app_nil_r ds) at 1.
  by apply (strip_trailing_zeros ds 0).
Qed.

Lemma to_of_uint u : to_uint (of_uint u) = u.
Proof. induction u; simpl; by f_equal. Qed.

Lemma to_of_N n : to_N (of_N n) = n.
Proof. unfold to_N, of_N. rewrite to_of_uint. apply DecimalN.Unsigned.of_to. Qed.

End DigitsFacts.

Module NumberFacts.
Import Digits Number DigitsFacts.

Lemma normalize_padded neg d ds z m p :
  is_zero d = false → last (d :: ds) ≠ Some D0 →
  normalize neg (replicate z D0 ++ (d :: ds) ++ replicate m D0) p
  = Finite neg (d :: ds) (p - Z.of_nat z).
Proof.
  intros Hd Hl. unfold normalize.
  rewrite strip_leading_zeros.
  change ((d :: ds) ++ replicate m D0) with (d :: (ds ++ replicate m D0)).
  rewrite strip_leading_id by done.
  change (d :: (ds ++ replicate m D0)) with ((d :: ds) ++ replicate m D0).
  rewrite strip_trailing_zeros by done.
  f_equal. rewrite !length_app, length_replicate. lia.
Qed.

Lemma normalize_id neg d ds p :
  is_zero d = false → last (d :: ds) ≠ Some D0 →
  normalize neg (d :: ds) p = Finite neg (d :: ds) p.
Proof.
  intros Hd Hl. pose proof (normalize_padded neg d ds 0 0 p Hd Hl) as H.
  cbn [replicate] in H. rewrite app_nil_r in H. cbn [app] in H.
  rewrite H. f_equal. lia.
Qed.

Lemma skip_sign neg d s :
  read_sign (trim_start (sign_chars neg ++ to_ascii d :: s))
  = (neg, to_ascii d :: s).
Proof. by destruct neg, d. Qed.

Lemma not_infinity d s :
  starts_with (list_ascii_of_string "Infinity") (to_ascii d :: s) = false.
Proof. by destruct d. Qed.

Lemma read_exponent_printed e :
  read_exponent ("e"%char :: (if 0 <=? e then "+"%char else "-"%char)
                          :: chars (of_N (Z.abs_N e))) = e.
Proof.
  unfold read_exponent. simpl Ascii.eqb. cbv iota. simpl orb. cbv iota.
  assert (read_sign ((if 0 <=? e then "+"%char else "-"%char)
                       :: chars (of_N (Z.abs_N e)))
          = (negb (0 <=? e), chars (of_N (Z.abs_N e)))) as ->.
  { by destruct (0 <=? e). }
  rewrite span_chars_nil.
  pose proof (to_of_N (Z.abs_N e)) as Hn.
  destruct (of_N (Z.abs_N e)) as [|x xs] eqn:E.
  - cbn in Hn. lia.
  - rewrite Hn. destruct (Z.leb_spec 0 e); simpl; lia.
Qed.

Lemma canonical_finite neg ds p :
  canonical (Finite neg ds p) = true →
  ∃ d r, ds = d :: r ∧ is_zero d = false ∧ last (d :: r) ≠ Some D0.
Proof.
  destruct ds as [|d r]; [done|]. cbn [canonical].
  intros [Hd Hl]%andb_prop. exists d, r. split_and!; [done| |].
  - by destruct (is_zero d).
  - by apply bool_decide_eq_true in Hl.
Qed.

Lemma parse_decimal_integer neg d r m :
  is_zero d = false → last (d :: r) ≠ Some D0 →
  parse_decimal neg (chars (d :: r) ++ replicate m "0"%char)
  = Finite neg (d :: r) (Z.of_nat (length (d :: r)) + Z.of_nat m).
Proof.
  intros Hd Hl. unfold parse_decimal.
  rewrite chars_replicate. unfold chars. rewrite <- fmap_app.
  fold (chars ((d :: r) ++ replicate m D0)). rewrite span_chars_nil.
  rewrite app_nil_r. cbn [app].
  change (d :: r ++ replicate m D0)
    with (replicate 0 D0 ++ (d :: r) ++ replicate m D0).
  rewrite normalize_padded by done. f_equal.
  cbn [replicate app read_exponent]. rewrite length_cons, length_app, length_replicate.
  cbn [length]. lia.
Qed.

Lemma parse_float_exponent neg d r n :
  is_zero d = false → last (d :: r) ≠ Some D0 →
  parse_float_chars
    (sign_chars neg ++
     match r with
     | [] => [to_ascii d]
     | _ :: _ => to_ascii d :: "."%char :: chars r
     end ++
     "e"%char :: (if 0 <=? n - 1 then "+"%char else "-"%char)
              :: chars (of_N (Z.abs_N (n - 1))))
  = Finite neg (d :: r) n.
Proof.
  intros Hd Hl. unfold parse_float_chars.
  destruct r as [|d' r'].
  - cbn [app]. rewrite skip_sign, not_infinity. unfold parse_decimal.
    rewrite span_cons, span_stop by done. cbn [fst snd].
    cbn [Ascii.eqb Bool.eqb]. cbn [app].
    rewrite read_exponent_printed.
    rewrite normalize_id by done. f_equal. cbn [length]. lia.
  - cbn [app]. rewrite skip_sign, not_infinity. unfold parse_decimal.
    rewrite span_cons, span_stop by done. cbn [fst snd].
    cbn [Ascii.eqb Bool.eqb].
    rewrite span_chars. rewrite span_stop by done. cbn [fst snd app].
    rewrite app_nil_r.
    rewrite read_exponent_printed.
    rewrite normalize_id by done. f_equal. cbn [length]. lia.
Qed.

(** Reading back what Number::toString printed gives the number again. *)
Lemma parse_float_to_chars x :
  canonical x = true → parse_float_chars (to_chars x) = x.
Proof.
  destruct x as [| neg | | neg ds n]; [done|by destruct neg|done|].
  intros (d & r & -> & Hd & Hl)%canonical_finite.
  unfold to_chars. cbv zeta.
  destruct ((Z.of_nat (length (d :: r)) <=? n) && (n <=? 21)) eqn:E1.
  { (* an integer printed in full *)
    apply andb_prop in E1 as [Hk%Z.leb_le H21%Z.leb_le].
    unfold parse_float_chars. cbn [chars fmap list_fmap app].
    rewrite skip_sign, not_infinity.
    change (to_ascii d :: (to_ascii <$> r) ++ ?z) with (chars (d :: r) ++ z).
    rewrite parse_decimal_integer by done. f_equal. lia. }
  destruct ((0 <? n) && (n <=? 21)) eqn:E2.
  { (* a decimal point inside the digits *)
    apply andb_prop in E2 as [H0%Z.ltb_lt H21%Z.leb_le].
    rewrite (proj2 (Z.leb_le n 21) H21), andb_true_r in E1.
    apply Z.leb_gt in E1.
    unfold parse_float_chars.
    destruct (Z.to_nat n) as [|n'] eqn:En; [lia|].
    cbn [take drop chars fmap list_fmap app].
    rewrite skip_sign, not_infinity. unfold parse_decimal.
    change (to_ascii d :: (to_ascii <$> take n' r) ++ ?z)
      with (chars (d :: take n' r) ++ z).
    rewrite span_chars, span_stop by done. cbn [fst snd].
    cbn [Ascii.eqb Bool.eqb]. rewrite app_nil_r.
    fold (chars (drop n' r)). rewrite span_chars_nil.
    assert (length r > n')%nat as Hlen by (cbn [length] in *; lia).
    destruct (drop n' r) as [|x xs] eqn:Ed.
    { apply (f_equal length) in Ed. rewrite length_drop in Ed.
      cbn in Ed. lia. }
    rewrite <- Ed. cbn [app]. rewrite take_drop.
    cbn [read_exponent].
    rewrite normalize_id by done. f_equal.
    rewrite length_cons, length_take. lia. }
  destruct ((-6 <? n) && (n <=? 0)) eqn:E3.
  { (* a small fraction printed in full *)
    apply andb_prop in E3 as [H6%Z.ltb_lt H0%Z.leb_le].
    unfold parse_float_chars.
    change ("0"%char :: ?z) with (to_ascii D0 :: z).
    rewrite skip_sign, not_infinity. unfold parse_decimal.
    rewrite span_cons, span_stop by done. cbn [fst snd].
    cbn [Ascii.eqb Bool.eqb].
    rewrite chars_replicate. unfold chars. rewrite <- fmap_app.
    fold (chars (replicate (Z.to_nat (- n)) D0 ++ d :: r)).
    rewrite span_chars_nil. cbn [read_exponent].
    destruct (replicate (Z.to_nat (- n)) D0 ++ d :: r) as [|x xs] eqn:Ed.
    { by destruct (Z.to_nat (- n)). }
    rewrite <- Ed. clear Ed x xs.
    pose proof (normalize_padded neg d r (S (Z.to_nat (- n))) 0
                  (Z.of_nat (length [D0]) + 0) Hd Hl) as Hn.
    cbn [replicate] in Hn. rewrite app_nil_r in Hn. cbn [app] in *.
    rewrite Hn. f_equal. cbn [length]. lia. }
  (* exponent notation *)
  by apply parse_float_exponent.
Qed.

(** An integer printed without an exponent is read back by parseInt. *)
Lemma parse_int_to_chars x :
  canonical x = true → plain_integer x = true →
  parse_int_chars (to_chars x) = x.
Proof.
  destruct x as [| neg | | neg ds n]; [done|done|done|].
  intros (d & r & -> & Hd & Hl)%canonical_finite Hp.
  unfold to_chars. cbv zeta. cbn [plain_integer] in Hp. rewrite Hp.
  apply andb_prop in Hp as [Hk%Z.leb_le H21%Z.leb_le].
  unfold parse_int_chars. cbn [chars fmap list_fmap app].
  rewrite skip_sign.
  change (to_ascii d :: (to_ascii <$> r) ++ ?z) with (chars (d :: r) ++ z).
  rewrite chars_replicate. unfold chars. rewrite <- fmap_app.
  fold (chars ((d :: r) ++ replicate (Z.to_nat (n - Z.of_nat (length (d :: r)))) D0)).
  rewrite span_chars_nil. cbn [app].
  pose proof (normalize_padded neg d r 0
    (Z.to_nat (n - Z.of_nat (length (d :: r))))
    (Z.of_nat (length (d :: r ++ replicate (Z.to_nat (n - Z.of_nat (length (d :: r)))) D0)))
    Hd Hl) as Hn.
  cbn [replicate app] in Hn. rewrite Hn. f_equal.
  rewrite length_cons, length_app, length_replicate. cbn [length] in *. lia.
Qed.

Lemma parseFloat_to_string x :
  canonical x = true → parseFloat (to_string x) = x.
Proof.
  intros. unfold parseFloat, to_string.
  rewrite list_ascii_of_string_of_list_ascii. by apply parse_float_to_chars.
Qed.

Lemma parseInt_to_string x :
  canonical x = true → plain_integer x = true → parseInt (to_string x) = x.
Proof.
  intros. unfold parseInt, to_string.
  rewrite list_ascii_of_string_of_list_ascii. by apply parse_int_to_chars.
Qed.

Lemma to_string_inj x y :
  canonical x = true → canonical y = true →
  to_string x = to_string y → x = y.
Proof.
  intros Hx Hy E. rewrite <- (parseFloat_to_string x), <- (parseFloat_to_string y) by done.
  by rewrite E.
Qed.

End NumberFacts.

(** ** The codec *)

Module CodecFacts.
Import Number NumberFacts.

Lemma get_object o name :
  Js.get (VObj o) name = Return (default VUndefined (o !! name)).
Proof. done. Qed.

Lemma has_own_property_object o name :
  Js.has_own_property (VObj o) name =
  match o !! "hasOwnProperty" with
  | Some _ => Throw (Js.not_a_function "hasOwnProperty")
  | None => Return (bool_decide (is_Some (o !! name)))
  end.
Proof. done. Qed.

Lemma has_own_property_plain o name :
  o !! "hasOwnProperty" = None →
  Js.has_own_property (VObj o) name = Return (bool_decide (is_Some (o !! name))).
Proof. intros Ho. by rewrite has_own_property_object, Ho. Qed.

(** What [remap] makes of an object: it throws when the object has a
    property called [hasOwnProperty], and returns otherwise. *)
Lemma remap_object o :
  remap (VObj o) =
  match o !! "hasOwnProperty" with
  | Some _ => Throw (Js.not_a_function "hasOwnProperty")
  | None =>
    Return (VObj
      (let r := <["capacity" := Js.parseFloat (member o "capacity")]>
                (<["panels" := Js.parseInt (member o "panels")]>
                 (<["id" := Js.parseInt (member o "id")]> o)) in
       if bool_decide (is_Some (o !! "lat")) && bool_decide (is_Some (o !! "lng"))
       then delete "lng" (delete "lat"
              (<["coordinate" :=
                   VObj (<["lat" := Js.parseFloat (member o "lat")]>
                         (<["lng" := Js.parseFloat (member o "lng")]> ∅))]> r))
       else r))
  end.
Proof.
  unfold remap. rewrite !get_object, !has_own_property_object. cbn [result_bind].
  destruct (o !! "hasOwnProperty"); [done|]. cbn [result_bind].
  destruct (bool_decide (is_Some (o !! "lat"))); cbn [result_bind andb]; [|done].
  by destruct (bool_decide (is_Some (o !! "lng"))).
Qed.

Lemma remap_plain o :
  o !! "hasOwnProperty" = None →
  remap (VObj o) =
  Return (VObj
    (let r := <["capacity" := Js.parseFloat (member o "capacity")]>
              (<["panels" := Js.parseInt (member o "panels")]>
               (<["id" := Js.parseInt (member o "id")]> o)) in
     if bool_decide (is_Some (o !! "lat")) && bool_decide (is_Some (o !! "lng"))
     then delete "lng" (delete "lat"
            (<["coordinate" :=
                 VObj (<["lat" := Js.parseFloat (member o "lat")]>
                       (<["lng" := Js.parseFloat (member o "lng")]> ∅))]> r))
     else r)).
Proof. intros Ho. by rewrite remap_object, Ho. Qed.

Lemma remap_object_returns o :
  o !! "hasOwnProperty" = None → ∃ r, remap (VObj o) = Return (VObj r).
Proof. intros Ho. rewrite remap_plain by done. eauto. Qed.

Lemma remap_shadowed o x :
  o !! "hasOwnProperty" = Some x →
  remap (VObj o) = Throw (Js.not_a_function "hasOwnProperty").
Proof. intros Ho. by rewrite remap_object, Ho. Qed.

(** [flatten], with the coordinate read once. *)
Lemma flatten_object site :
  flatten site =
  match site !! "hasOwnProperty" with
  | Some _ => Throw (Js.not_a_function "hasOwnProperty")
  | None =>
      match site !! "coordinate" with
      | Some coordinate =>
          let? lat := Js.get coordinate "lat" in
          let? lng := Js.get coordinate "lng" in
          Return (delete "coordinate" (<["lng" := lng]> (<["lat" := lat]> site)))
      | None => Return site
      end
  end.
Proof.
  unfold flatten. rewrite has_own_property_object.
  destruct (site !! "hasOwnProperty"); [done|]. cbn [result_bind].
  destruct (site !! "coordinate") as [c|] eqn:Ec.
  - rewrite bool_decide_eq_true_2 by eauto. cbn [result_bind].
    rewrite get_object, Ec. cbn [result_bind default from_option id].
    destruct (Js.get c "lat") as [lat|]; [|done]. cbn [result_bind].
    by rewrite get_object, lookup_insert_ne, Ec.
  - by rewrite bool_decide_eq_false_2 by by intros [? ?].
Qed.

Lemma flatten_shadowed site x :
  site !! "hasOwnProperty" = Some x →
  flatten site = Throw (Js.not_a_function "hasOwnProperty").
Proof.
  intros Hs. unfold flatten. by rewrite has_own_property_object, Hs.
Qed.

Lemma flatten_with_coordinate site c :
  site !! "hasOwnProperty" = None →
  site !! "coordinate" = Some (VObj c) →
  flatten site =
  Return (delete "coordinate"
            (<["lng" := default VUndefined (c !! "lng")]>
             (<["lat" := default VUndefined (c !! "lat")]> site))).
Proof.
  intros Hs Hc. unfold flatten.
  rewrite has_own_property_plain by done.
  rewrite bool_decide_eq_true_2 by eauto. cbn [result_bind].
  rewrite get_object, Hc. cbn [result_bind default from_option id].
  rewrite get_object. cbn [result_bind].
  rewrite get_object, lookup_insert_ne, Hc by done.
  cbn [result_bind default from_option id]. by rewrite get_object.
Qed.

Lemma flatten_without_coordinate site :
  site !! "hasOwnProperty" = None →
  site !! "coordinate" = None → flatten site = Return site.
Proof.
  intros Hs Hc. unfold flatten. rewrite has_own_property_plain, Hc by done.
  rewrite bool_decide_eq_false_2; [done|]. by intros [? ?].
Qed.

(** A site that [flatten] accepts has no property called [hasOwnProperty],
    and neither has its flat record. *)
Lemma flatten_returns_plain site flat :
  flatten site = Return flat →
  site !! "hasOwnProperty" = None ∧ flat !! "hasOwnProperty" = None.
Proof.
  unfold flatten. rewrite has_own_property_object.
  destruct (site !! "hasOwnProperty") eqn:Hs; [done|]. cbn [result_bind].
  case_bool_decide as Hc; cbn [result_bind].
  - destruct Hc as [c Hc]. rewrite get_object, Hc.
    cbn [result_bind default from_option id].
    destruct (Js.get c "lat") as [lat|] eqn:Elat; [|done]. cbn [result_bind].
    rewrite get_object, lookup_insert_ne, Hc by done.
    cbn [result_bind default from_option id].
    destruct (Js.get c "lng") as [lng|] eqn:Elng; [|done].
    cbn [result_bind]. intros [= <-]. split; [done|].
    by rewrite lookup_delete_ne, !lookup_insert_ne.
  - by intros [= <-].
Qed.

Lemma stored_fields_lookup flat name :
  name ≠ "__proto__" →
  stored_fields flat !! name = (λ v, VStr (Js.ToString v)) <$> flat !! name.
Proof.
  intros Hn. unfold stored_fields.
  rewrite lookup_fmap, lookup_delete_ne, lookup_fmap by done.
  by destruct (flat !! name).
Qed.

Lemma stored_fields_plain flat :
  flat !! "hasOwnProperty" = None → stored_fields flat !! "hasOwnProperty" = None.
Proof. intros Hf. by rewrite stored_fields_lookup, Hf. Qed.

Lemma stored_fields_hash_object flat :
  hash_object (Some (Js.ToString <$> flat)) = VObj (stored_fields flat).
Proof. done. Qed.

Lemma hash_object_plain h :
  h !! "hasOwnProperty" = None →
  (VStr <$> delete "__proto__" h : gmap string value) !! "hasOwnProperty" = None.
Proof. intros Hh. by rewrite lookup_fmap, lookup_delete_ne, Hh. Qed.

Lemma hash_object_shadowed h x :
  h !! "hasOwnProperty" = Some x →
  (VStr <$> delete "__proto__" h : gmap string value) !! "hasOwnProperty"
  = Some (VStr x).
Proof. intros Hh. by rewrite lookup_fmap, lookup_delete_ne, Hh. Qed.

End CodecFacts.

Import CodecFacts.

(** C10, as stated, fails: of a flat record with a lat field, no lng field
    and a field called hasOwnProperty, decode makes no result at all; it
    throws a TypeError. *)
Lemma remap_shadowed_record_throws :
  flat_record MoreExamples.shadowed_record ∧
  MoreExamples.shadowed_record !! "lat" = Some (VStr "3") ∧
  MoreExamples.shadowed_record !! "lng" = None ∧
  remap (VObj MoreExamples.shadowed_record)
  = Throw (TypeError "hasOwnProperty is not a function").
Proof.
  split_and!; try done.
  intros name v. unfold MoreExamples.shadowed_record.
  intros [[_ <-]|[_ [[_ <-]|[_ E]]%lookup_insert_Some]]%lookup_insert_Some;
    [done|done|]. by rewrite lookup_empty in E.
Qed.

(** C10, amended.  Of a flat record that has no field called hasOwnProperty,
    decode returns an object.  When the record has only one of the fields
    lat and lng, or neither, that object has no coordinate object of
    decode's making, and its lat and lng fields are as they were; when the
    record has both, the object has a coordinate object made of the two
    parsed values, and no lat or lng field. *)
Theorem remap_coordinate_needs_both (o : gmap string value) :
  flat_record o →
  o !! "hasOwnProperty" = None →
  let both :=
    bool_decide (is_Some (o !! "lat")) && bool_decide (is_Some (o !! "lng")) in
  ∃ r, remap (VObj o) = Return (VObj r) ∧
    r !! "coordinate" =
      (if both
       then Some (VObj (<["lat" := Js.parseFloat (member o "lat")]>
                        (<["lng" := Js.parseFloat (member o "lng")]> ∅)))
       else o !! "coordinate") ∧
    r !! "lat" = (if both then None else o !! "lat") ∧
    r !! "lng" = (if both then None else o !! "lng").
Proof.
  intros _ Ho both. rewrite remap_plain by done.
  eexists; split; [done|]. fold both.
  destruct both; cbv zeta.
  - split_and!.
    + by rewrite !lookup_delete_ne, lookup_insert_eq.
    + by rewrite lookup_delete_ne, lookup_delete_eq.
    + by rewrite lookup_delete_eq.
  - by rewrite !lookup_insert_ne by done.
Qed.

(** C7, as stated, fails: applied to the not-found sentinel, decode does not
    hand the sentinel back, it throws. *)
Lemma remap_null_throws :
  remap VNull = Throw (TypeError "Cannot read properties of null or undefined")
  ∧ remap VNull ≠ Return VNull.
Proof. by split. Qed.

(** C3, as stated, fails: the id 10^21 prints as 1e+21, of which parseInt
    reads 1.  And a site that has a coordinate and a property called
    hasOwnProperty is not encoded at all: encode throws a TypeError. *)
Lemma huge_id_not_reproduced :
  (∃ r, decode_stored Example.site_with_huge_id = Return (VObj r) ∧
        decode_encoded Example.site_with_huge_id = Return (VObj r) ∧
        Example.site_with_huge_id !! "id" = Some (VNum (Finite false [Digits.D1] 22)) ∧
        r !! "id" = Some (VNum (Finite false [Digits.D1] 1)) ∧
        r !! "id" ≠ Example.site_with_huge_id !! "id") ∧
  is_Some (MoreExamples.site_with_shadow !! "coordinate") ∧
  decode_stored MoreExamples.site_with_shadow
  = Throw (TypeError "hasOwnProperty is not a function") ∧
  decode_encoded MoreExamples.site_with_shadow
  = Throw (TypeError "hasOwnProperty is not a function").
Proof.
  split_and!; [|by eexists|by vm_compute|by vm_compute].
  eexists. split; [vm_compute; reflexivity|].
  split; [vm_compute; reflexivity|]. by vm_compute.
Qed.

(** C3, amended.  For a site that has no property called hasOwnProperty,
    whose id and panels are integers of magnitude below 10^21, whose
    capacity is a number and whose coordinate holds the numbers lat and lng,
    decoding the encoded site gives back the id, the panels, the capacity
    and the coordinate, whether the flat record went through the store's
    strings or not. *)
Theorem decode_encode_round_trip (site : gmap string value) i p c la lo :
  site !! "hasOwnProperty" = None →
  site !! "id" = Some (VNum i) →
  site !! "panels" = Some (VNum p) →
  site !! "capacity" = Some (VNum c) →
  site !! "coordinate" = Some (VObj (<["lat" := VNum la]> (<["lng" := VNum lo]> ∅))) →
  Number.canonical i = true → Number.plain_integer i = true →
  Number.canonical p = true → Number.plain_integer p = true →
  Number.canonical c = true →
  Number.canonical la = true → Number.canonical lo = true →
  ∃ r r',
    decode_stored site = Return (VObj r) ∧
    decode_encoded site = Return (VObj r') ∧
    r !! "id" = site !! "id" ∧ r' !! "id" = site !! "id" ∧
    r !! "panels" = site !! "panels" ∧ r' !! "panels" = site !! "panels" ∧
    r !! "capacity" = site !! "capacity" ∧
    r' !! "capacity" = site !! "capacity" ∧
    r !! "coordinate" = site !! "coordinate" ∧
    r' !! "coordinate" = site !! "coordinate".
Proof.
  intros Hs Hi Hp Hc Hco ci pi cp pp cc cla clo.
  unfold decode_stored, decode_encoded.
  rewrite (flatten_with_coordinate _ _ Hs Hco). cbn [result_bind].
  rewrite lookup_insert_eq, lookup_insert_ne, lookup_insert_eq by done.
  cbn [default from_option id].
  set (flat := delete "coordinate" _).
  assert (flat !! "id" = Some (VNum i)) as Fi.
  { unfold flat. by rewrite lookup_delete_ne, !lookup_insert_ne. }
  assert (flat !! "panels" = Some (VNum p)) as Fp.
  { unfold flat. by rewrite lookup_delete_ne, !lookup_insert_ne. }
  assert (flat !! "capacity" = Some (VNum c)) as Fc.
  { unfold flat. by rewrite lookup_delete_ne, !lookup_insert_ne. }
  assert (flat !! "lat" = Some (VNum la)) as Fla.
  { unfold flat. by rewrite lookup_delete_ne, lookup_insert_ne, lookup_insert_eq. }
  assert (flat !! "lng" = Some (VNum lo)) as Flo.
  { unfold flat. by rewrite lookup_delete_ne, lookup_insert_eq. }
  assert (flat !! "hasOwnProperty" = None) as Fs.
  { unfold flat. by rewrite lookup_delete_ne, !lookup_insert_ne. }
  rewrite !remap_plain by (done || by apply stored_fields_plain). unfold member.
  rewrite !stored_fields_lookup, Fi, Fp, Fc, Fla, Flo by done.
  cbn [fmap option_fmap option_map default from_option id].
  rewrite !bool_decide_eq_true_2 by eauto. cbn [andb].
  unfold Js.parseInt, Js.parseFloat. cbn [Js.ToString id].
  rewrite !NumberFacts.parseInt_to_string, !NumberFacts.parseFloat_to_string
    by done.
  do 2 eexists. split; [done|]. split; [done|].
  rewrite Hi, Hp, Hc, Hco.
  split_and!;
    by rewrite !lookup_delete_ne, ?lookup_insert_eq, ?lookup_insert_ne,
         ?lookup_insert_eq, ?lookup_insert_ne, ?lookup_insert_eq by done.
Qed.

(** ** The store *)

Module StoreFacts.
Import Redis.

Lemma is_empty_true {A} (m : gmap string A) : is_empty m = true ↔ m = ∅.
Proof.
  unfold is_empty. rewrite bool_decide_eq_true. apply map_size_empty_iff.
Qed.

Lemma is_empty_false {A} (m : gmap string A) : is_empty m = false ↔ m ≠ ∅.
Proof.
  rewrite <- is_empty_true. destruct (is_empty m); naive_solver.
Qed.

Lemma rank_range_all {A} (l : list A) : rank_range 0 (-1) l = l.
Proof.
  unfold rank_range. cbn [Z.ltb Z.compare].
  destruct l as [|x l]; [done|].
  assert ((Z.of_nat (length (x :: l)) + -1 <? 0) = false) as ->
    by (apply Z.ltb_ge; cbn [length]; lia).
  assert ((Z.of_nat (length (x :: l)) <=? 0) = false) as ->
    by (apply Z.leb_gt; cbn [length]; lia).
  cbn [orb]. rewrite Z.min_r by lia.
  replace (Z.to_nat (Z.of_nat (length (x :: l)) - 1 - 0 + 1))
    with (length (x :: l)) by lia.
  by rewrite drop_0, firstn_all.
Qed.

Lemma ranked_perm (z : gmap string Q) : ranked z ≡ₚ map_to_list z.
Proof. apply merge_sort_Permutation. Qed.

Lemma elem_of_ranked (z : gmap string Q) id x :
  (id, x) ∈ ranked z ↔ z !! id = Some x.
Proof. by rewrite ranked_perm, elem_of_map_to_list. Qed.

Lemma NoDup_ranked_fst (z : gmap string Q) : NoDup (ranked z).*1.
Proof. rewrite ranked_perm. apply NoDup_fst_map_to_list. Qed.

Lemma elem_of_ranked_filter (z : gmap string Q) (P : string * Q → Prop)
    `{∀ e, Decision (P e)} id :
  id ∈ (filter P (ranked z)).*1 ↔ ∃ x, z !! id = Some x ∧ P (id, x).
Proof.
  rewrite list_elem_of_fmap. split.
  - intros ([id' x] & -> & [HP Hin%elem_of_ranked]%list_elem_of_filter). eauto.
  - intros (x & Hx & HP). exists (id, x). split; [done|].
    apply list_elem_of_filter. by rewrite elem_of_ranked.
Qed.

Lemma NoDup_ranked_filter (z : gmap string Q) (P : string * Q → Prop)
    `{∀ e, Decision (P e)} :
  NoDup (filter P (ranked z)).*1.
Proof.
  eapply sublist_NoDup; [apply NoDup_ranked_fst|].
  apply fmap_sublist, sublist_filter.
Qed.

Lemma same_except_refl ks st : same_except ks st st.
Proof. by intros k _. Qed.

Lemma same_except_trans ks st1 st2 st3 :
  same_except ks st1 st2 → same_except ks st2 st3 → same_except ks st1 st3.
Proof.
  intros H12 H23 k Hk. destruct (H12 k Hk), (H23 k Hk). split; congruence.
Qed.

Lemma same_except_weaken ks ks' st st' :
  ks ⊆ ks' → same_except ks st st' → same_except ks' st st'.
Proof. intros Hsub Hs k Hk. apply Hs. intros Hin. by apply Hk, Hsub. Qed.

Lemma singleton_subseteq_l (a b : string) : [a] ⊆ [a; b].
Proof. intros x ->%list_elem_of_singleton. by left. Qed.

Lemma singleton_subseteq_r (a b : string) : [b] ⊆ [a; b].
Proof. intros x ->%list_elem_of_singleton. right. by left. Qed.

Lemma store_zset_frame dst z st : same_except [dst] st (store_zset dst z st).
Proof.
  intros k [Hk _]%not_elem_of_cons. unfold store_zset. cbn.
  destruct (is_empty z); by rewrite ?lookup_delete_ne, ?lookup_insert_ne.
Qed.

Lemma expire_frame key seconds st :
  same_except [key] st (expire key seconds st).2.
Proof.
  intros k [Hk _]%not_elem_of_cons. unfold expire.
  destruct (db st !! key); [|done].
  destruct (seconds <=? 0); cbn;
    by rewrite ?lookup_delete_ne, ?lookup_insert_ne.
Qed.

Lemma expire_db key seconds st :
  0 < seconds → db (expire key seconds st).2 = db st.
Proof.
  intros Hs. unfold expire. destruct (db st !! key); [|done].
  by destruct (Z.leb_spec seconds 0); [lia|].
Qed.

Lemma expire_expires key seconds st k :
  0 < seconds →
  expires (expire key seconds st).2 !! k =
  if bool_decide (k = key ∧ is_Some (db st !! key)) then Some seconds
  else expires st !! k.
Proof.
  intros Hs. unfold expire. destruct (db st !! key) eqn:E.
  - destruct (Z.leb_spec seconds 0); [lia|]. cbn [snd expires].
    case_bool_decide as Hk.
    + destruct Hk as [-> _]. by rewrite lookup_insert_eq.
    + rewrite lookup_insert_ne; [done|]. intros ->. apply Hk. eauto.
  - cbn. rewrite bool_decide_eq_false_2; [done|]. intros [_ [? ?]]. done.
Qed.

End StoreFacts.

(** ** The data-access object *)

Section DaoFacts.
Context `{KeyGenerator} `{GeoIndex}.
Import Redis StoreFacts.

Lemma world_eta w : World (redis w) (generated w) = w.
Proof. by destruct w. Qed.


Lemma hgetall_present key st h :
  db st !! key = Some (RHash h) → h ≠ ∅ → hgetall key st = Return (Some h).
Proof.
  intros E Hh. unfold hgetall, read_hash. rewrite E.
  by rewrite (proj2 (is_empty_false h) Hh).
Qed.

(** What the lookup of one site id contributes to the list of sites. *)
Lemma hgetall_stored_site st id :
  site_keys_typed st → site_records_plain st →
  ∃ reply, hgetall (getSiteHashKey id) st = Return reply ∧
    match stored_site st id with
    | Some site => Js.truthy (hash_object reply) = true
                   ∧ remap (hash_object reply) = Return site
    | None => Js.truthy (hash_object reply) = false
    end.
Proof.
  intros Ht Hp. unfold hgetall, read_hash, stored_site.
  destruct (db st !! getSiteHashKey id) as [[h|z]|] eqn:E.
  - eexists; split; [done|]. destruct (is_empty h); [done|].
    cbn [hash_object].
    destruct (remap_object_returns (VStr <$> delete "__proto__" h)) as [r ->];
      [|done].
    apply hash_object_plain. by eapply Hp.
  - by destruct (Ht id z).
  - by eexists.
Qed.

Lemma fetch_sites_world ids w : (fetch_sites ids w).2 = w.
Proof.
  induction ids as [|id ids IH]; [done|].
  cbn [fetch_sites]. unfold await at 1. unfold hgetallAsync, read_store.
  destruct (let? reply := _ in _) as [v|e]; [|done].
  destruct (Js.truthy v); [|done].
  unfold await, sync. destruct (remap v); [|done].
  specialize IH. destruct (fetch_sites ids w) as [[sites|e] w'];
    cbn in IH; by subst.
Qed.

Lemma fetch_sites_typed ids w :
  site_keys_typed (redis w) → site_records_plain (redis w) →
  fetch_sites ids w = (Return (omap (stored_site (redis w)) ids), w).
Proof.
  intros Ht Hp. induction ids as [|id ids IH]; [done|].
  cbn [fetch_sites omap list_omap]. unfold await at 1.
  unfold hgetallAsync, read_store.
  destruct (hgetall_stored_site (redis w) id Ht Hp) as (reply & -> & Hs).
  cbn [result_bind].
  destruct (stored_site (redis w) id) as [site|].
  - destruct Hs as [-> Hr]. unfold await, sync. rewrite Hr, IH. done.
  - by rewrite Hs.
Qed.

Lemma exec_batch_hgetall ids position st :
  site_keys_typed st → site_records_plain st →
  ∃ results,
    exec_batch position ((λ id, HGETALL (getSiteHashKey id)) <$> ids) st
      = (results, st) ∧
    remap_results results = Return (omap (stored_site st) ids).
Proof.
  intros Ht Hp. revert position.
  induction ids as [|id ids IH]; intros position; [by eexists|].
  cbn [fmap list_fmap exec_batch exec_command].
  destruct (IH (S position)) as (results & -> & Hr).
  destruct (hgetall_stored_site st id Ht Hp) as (reply & -> & Hs).
  cbn [result_bind]. eexists; split; [done|].
  cbn [remap_results omap list_omap].
  destruct (stored_site st id) as [site|].
  - destruct Hs as [-> ->]. cbn [result_bind]. by rewrite Hr.
  - by rewrite Hs.
Qed.

Lemma exec_batch_hgetall_store ids position st :
  (exec_batch position ((λ id, HGETALL (getSiteHashKey id)) <$> ids) st).2
  = st.
Proof.
  revert position. induction ids as [|id ids IH]; intros position; [done|].
  cbn [fmap list_fmap exec_batch exec_command].
  specialize (IH (S position)).
  destruct (exec_batch (S position) _ st). cbn in *. by subst.
Qed.

(** The sites of the geo index, in its order, that have a hash. *)
Lemma findAll_typed w :
  (∀ h, db (redis w) !! getSiteGeoKey ≠ Some (RHash h)) →
  site_keys_typed (redis w) → site_records_plain (redis w) →
  findAll w =
  (Return (omap (stored_site (redis w)) (ranked (geo_index (redis w))).*1), w).
Proof.
  intros Hg Ht Hp. unfold findAll, await at 1, zrangeAsync, read_store.
  assert (zrange getSiteGeoKey 0 (-1) (redis w)
          = Return (ranked (geo_index (redis w))).*1) as ->.
  { unfold zrange, read_zset, geo_index, zset_at.
    destruct (db (redis w) !! getSiteGeoKey) as [[h|z]|] eqn:E;
      rewrite ?rank_range_all; try done. by destruct (Hg h). }
  unfold await, execAsync, on_store.
  destruct (exec_batch_hgetall (ranked (geo_index (redis w))).*1 0 (redis w)
              Ht Hp) as (results & -> & Hr).
  unfold sync. by rewrite Hr, world_eta.
Qed.

End DaoFacts.

Section InsertFacts.
Context `{KeyGenerator} `{GeoIndex}.
Import Redis StoreFacts.

(** What a successful insert has done, step by step. *)
Lemma insert_returns site w key w' :
  insert site w = (Return key, w') →
  key = getSiteHashKey (site_id site) ∧
  ∃ flat old coordinate lng lat g z,
    flatten site = Return flat ∧
    Js.ToString <$> flat ≠ ∅ ∧
    read_hash "HMSET" key (redis w) = Return old ∧
    site !! "coordinate" = Some coordinate ∧
    Js.get coordinate "lng" = Return lng ∧
    Js.get coordinate "lat" = Return lat ∧
    geoEncode (Js.ToString lng) (Js.ToString lat) = Some g ∧
    let st1 := update_key key (RHash ((Js.ToString <$> flat) ∪ old)) (redis w) in
    read_zset "GEOADD" getSiteGeoKey st1 = Return z ∧
    w' = World (update_key getSiteGeoKey
                  (RZSet (<[site_id site := g]> z)) st1) (generated w).
Proof.
  unfold insert, site_id. unfold await at 1, sync.
  destruct (flatten site) as [flat|e] eqn:Ef; [|done].
  unfold await at 1, hmsetAsync, on_store, hmset.
  destruct (is_empty (Js.ToString <$> flat)) eqn:Ee; [done|].
  apply is_empty_false in Ee.
  destruct (read_hash "HMSET" _ (redis w)) as [old|e] eqn:Eo; [|done].
  unfold await at 1, sync.
  rewrite has_own_property_plain by apply (flatten_returns_plain _ _ Ef).
  case_bool_decide as Hc; cbn [negb]; [|done].
  destruct Hc as [coordinate Hc]. unfold member at 1 2. rewrite Hc.
  cbn [default from_option id].
  unfold await at 1, sync.
  destruct (Js.get coordinate "lng") as [lng|e] eqn:Elng; [|done].
  unfold await at 1.
  destruct (Js.get coordinate "lat") as [lat|e] eqn:Elat; [|done].
  unfold await, geoaddAsync, on_store, geoadd. cbn [redis generated].
  destruct (geoEncode _ _) as [g|] eqn:Eg; [|done].
  destruct (read_zset "GEOADD" _ _) as [z|e] eqn:Ez; [|done].
  unfold resolve. intros [= <- <-]. split; [done|].
  by exists flat, old, coordinate, lng, lat, g, z.
Qed.

(** A site that insert accepts has no property called [hasOwnProperty]. *)
Lemma insert_returns_plain site w key w' :
  insert site w = (Return key, w') → site !! "hasOwnProperty" = None.
Proof.
  intros (_ & flat & ? & ? & ? & ? & ? & ? & Hf & _)%insert_returns.
  apply (flatten_returns_plain _ _ Hf).
Qed.

(** Without a coordinate, insert is rejected, after the hash has been
    written. *)
Lemma insert_without_coordinate site w old :
  site !! "hasOwnProperty" = None →
  site !! "coordinate" = None → site ≠ ∅ →
  read_hash "HMSET" (getSiteHashKey (site_id site)) (redis w) = Return old →
  insert site w =
  (Throw (PlainError "Coordinate required for site geo insert!"),
   World (update_key (getSiteHashKey (site_id site))
            (RHash ((Js.ToString <$> site) ∪ old)) (redis w)) (generated w)).
Proof.
  intros Hs Hc Hn Ho. unfold insert, site_id in *.
  rewrite (flatten_without_coordinate _ Hs Hc).
  unfold await at 1, sync. unfold await, hmsetAsync, on_store, hmset.
  rewrite (proj2 (is_empty_false _)) by by rewrite fmap_empty_iff.
  rewrite Ho, has_own_property_plain, Hc by done.
  by rewrite bool_decide_eq_false_2 by by intros [? ?].
Qed.

(** Insert changes two keys at most: the site's hash and the geo index. *)
Lemma insert_frame site w r w' :
  insert site w = (r, w') →
  generated w' = generated w ∧
  same_except [getSiteHashKey (site_id site); getSiteGeoKey]
              (redis w) (redis w').
Proof.
  unfold insert, site_id, await, sync, reject, resolve, hmsetAsync,
    geoaddAsync, on_store, hmset, geoadd.
  set (key := getSiteHashKey _).
  destruct (flatten site) as [flat|e];
    [|by intros [= <- <-]; split; [|apply same_except_refl]].
  destruct (is_empty _);
    [by intros [= <- <-]; split; [|apply same_except_refl]|].
  destruct (read_hash _ _ _) as [old|e];
    [|by intros [= <- <-]; split; [|apply same_except_refl]].
  assert (same_except [key; getSiteGeoKey] (redis w)
            (update_key key (RHash ((Js.ToString <$> flat) ∪ old)) (redis w)))
    as Hs1.
  { intros k [Hk _]%not_elem_of_cons. cbn. by rewrite lookup_insert_ne. }
  destruct (Js.has_own_property _ _); [|by intros [= <- <-]].
  destruct (negb _); [by intros [= <- <-]|].
  destruct (Js.get _ "lng"); [|by intros [= <- <-]].
  destruct (Js.get _ "lat"); [|by intros [= <- <-]].
  cbn [redis generated].
  destruct (geoEncode _ _); [|by intros [= <- <-]].
  destruct (read_zset _ _ _); [|by intros [= <- <-]].
  intros [= <- <-]. split; [done|].
  intros k Hk. destruct (Hs1 k Hk) as [Hd He].
  apply not_elem_of_cons in Hk as [Hk1 [Hk2 _]%not_elem_of_cons].
  cbn in *. by rewrite !lookup_insert_ne.
Qed.

(** Insert removes no key. *)
Lemma insert_keeps_keys site w r w' k :
  insert site w = (r, w') →
  is_Some (db (redis w) !! k) → is_Some (db (redis w') !! k).
Proof.
  unfold insert, site_id, await, sync, reject, resolve, hmsetAsync,
    geoaddAsync, on_store, hmset, geoadd.
  set (key := getSiteHashKey _). intros Hrun Hk. revert Hrun.
  destruct (flatten site) as [flat|e]; [|by intros [= <- <-]].
  destruct (is_empty _); [by intros [= <- <-]|].
  destruct (read_hash _ _ _) as [old|e]; [|by intros [= <- <-]].
  assert (is_Some (<[key := RHash ((Js.ToString <$> flat) ∪ old)]>
                     (db (redis w)) !! k)) as Hk1.
  { rewrite lookup_insert. by case_decide. }
  destruct (Js.has_own_property _ _); [|by intros [= <- <-]].
  destruct (negb _); [by intros [= <- <-]|].
  destruct (Js.get _ "lng"); [|by intros [= <- <-]].
  destruct (Js.get _ "lat"); [|by intros [= <- <-]].
  cbn [redis generated].
  destruct (geoEncode _ _); [|by intros [= <- <-]].
  destruct (read_zset _ _ _); [|by intros [= <- <-]].
  intros [= <- <-]. cbn. rewrite lookup_insert. by case_decide.
Qed.

End InsertFacts.

Section ExcessCapacityFacts.
Context `{KeyGenerator} `{GeoIndex}.
Import Redis StoreFacts.

(** The world that [findByGeoWithExcessCapacity] leaves, whatever it
    returns: two more temporary keys handed out, and the store as the batch
    left it. *)
Lemma excess_capacity_world lat lng radius unit w :
  (findByGeoWithExcessCapacity lat lng radius unit w).2 =
  World (after_set_operations (temporaryKey (generated w))
           (temporaryKey (S (generated w))) lat lng radius
           (Js.toLowerCase unit) (redis w))
        (S (S (generated w))).
Proof.
  unfold findByGeoWithExcessCapacity, getTemporaryKey, await, execAsync,
    on_store, zrangebyscoreAsync, read_store.
  cbn [exec_batch exec_command integer_reply fst snd redis generated].
  fold (after_set_operations (temporaryKey (generated w))
          (temporaryKey (S (generated w))) lat lng radius
          (Js.toLowerCase unit) (redis w)).
  destruct (zrangebyscore _ _ _); [|done].
  apply fetch_sites_world.
Qed.

Lemma georadius_store_frame key lng lat radius unit dst st :
  same_except [dst] st (georadius_store key lng lat radius unit dst st).2.
Proof.
  unfold georadius_store. destruct (in_radius _ _ _ _ _ _).
  - apply store_zset_frame.
  - apply same_except_refl.
Qed.

Lemma zinterstore_frame dst key1 key2 w1 w2 st :
  same_except [dst] st (zinterstore dst key1 key2 w1 w2 st).2.
Proof.
  unfold zinterstore.
  destruct (read_zset _ key1 _); [|apply same_except_refl].
  destruct (read_zset _ key2 _); [|apply same_except_refl].
  apply store_zset_frame.
Qed.

Lemma after_set_operations_frame t1 t2 lat lng radius unit st :
  same_except [t1; t2] st (after_set_operations t1 t2 lat lng radius unit st).
Proof.
  unfold after_set_operations.
  eapply same_except_trans;
    [|eapply same_except_weaken;
       [apply singleton_subseteq_r|apply expire_frame]].
  eapply same_except_trans;
    [|eapply same_except_weaken;
       [apply singleton_subseteq_l|apply expire_frame]].
  eapply same_except_trans;
    [|eapply same_except_weaken;
       [apply singleton_subseteq_r|apply zinterstore_frame]].
  eapply same_except_weaken;
    [apply singleton_subseteq_l|apply georadius_store_frame].
Qed.

(** Each temporary key that exists after the batch expires in 30 seconds. *)
Lemma after_set_operations_expires t1 t2 lat lng radius unit st t :
  t ∈ [t1; t2] →
  is_Some (db (after_set_operations t1 t2 lat lng radius unit st) !! t) →
  expires (after_set_operations t1 t2 lat lng radius unit st) !! t = Some 30.
Proof.
  unfold after_set_operations. cbv zeta.
  set (st2 := (zinterstore _ _ _ _ _ _).2).
  intros Ht. rewrite !expire_db by lia. intros Hk.
  rewrite !expire_expires by lia. rewrite expire_db by lia.
  case_bool_decide as E2; [done|].
  case_bool_decide as E1; [done|].
  exfalso. apply elem_of_cons in Ht as [->|Ht]; [naive_solver|].
  apply list_elem_of_singleton in Ht as ->. naive_solver.
Qed.

End ExcessCapacityFacts.

Section ExcessCapacitySets.
Context `{KeyGenerator} `{GeoIndex}.
Import Redis StoreFacts.

Lemma read_zset_store_zset command key z st :
  read_zset command key (store_zset key z st) = Return z.
Proof.
  unfold read_zset, store_zset. cbn [db].
  destruct (is_empty z) eqn:E.
  - apply is_empty_true in E as ->. by rewrite lookup_delete_eq.
  - by rewrite lookup_insert_eq.
Qed.

Lemma read_zset_same command key st st' :
  db st' !! key = db st !! key →
  read_zset command key st' = read_zset command key st.
Proof. intros E. unfold read_zset. by rewrite E. Qed.

Lemma read_zset_absent command key st :
  db st !! key = None → read_zset command key st = Return ∅.
Proof. intros E. unfold read_zset. by rewrite E. Qed.

Lemma read_zset_view command key st :
  match read_zset command key st with
  | Return z => zset_at key st = z
  | Throw _ => zset_at key st = ∅
  end.
Proof. unfold read_zset, zset_at. by destruct (db st !! key) as [[?|?]|]. Qed.

Lemma in_radius_view lat lng radius unit st :
  match in_radius getSiteGeoKey (Number.to_string lng) (Number.to_string lat)
          (Number.to_string radius) unit st with
  | Return z => z = within_radius st lat lng radius unit
  | Throw _ => within_radius st lat lng radius unit = ∅
  end.
Proof.
  unfold in_radius, within_radius, geo_index.
  pose proof (read_zset_view "GEORADIUS" getSiteGeoKey st) as Hv.
  destruct (read_zset _ _ _) as [z|e]; rewrite Hv.
  - by destruct (geoWithin _ _ _ _).
  - destruct (geoWithin _ _ _ _); [|done]. apply map_filter_empty.
Qed.

(** After GEORADIUS ... STORE, the first temporary key holds the members
    within the radius. *)
Lemma radius_stored t1 lat lng radius unit st :
  db st !! t1 = None →
  read_zset "ZINTERSTORE" t1
    (georadius_store getSiteGeoKey (Number.to_string lng)
       (Number.to_string lat) (Number.to_string radius) unit t1 st).2
  = Return (within_radius st lat lng radius unit).
Proof.
  intros Hf. unfold georadius_store.
  pose proof (in_radius_view lat lng radius unit st) as Hv.
  destruct (in_radius _ _ _ _ _ _) as [z|e]; cbn [snd].
  - by rewrite read_zset_store_zset, Hv.
  - by rewrite read_zset_absent, Hv.
Qed.

Lemma intersection_with_empty_r {A} (f : A → A → option A)
    (m : gmap string A) :
  intersection_with f m ∅ = ∅.
Proof.
  apply map_eq. intros k.
  rewrite lookup_intersection_with, !lookup_empty. by destruct (m !! k).
Qed.

(** After ZINTERSTORE, the second temporary key holds the weighted
    intersection. *)
Lemma intersection_stored t1 t2 lat lng radius unit st :
  t1 ≠ t2 → getCapacityRankingKey ≠ t1 →
  db st !! t1 = None → db st !! t2 = None →
  read_zset "ZRANGEBYSCORE" t2
    (after_set_operations t1 t2 lat lng radius unit st)
  = Return (within_radius_ranked st lat lng radius unit).
Proof.
  intros Ht Hr Hf1 Hf2. unfold after_set_operations. cbv zeta.
  set (st1 := (georadius_store _ _ _ _ _ _ _).2).
  assert (same_except [t1] st st1) as Hs1 by apply georadius_store_frame.
  unfold read_zset at 1. rewrite !expire_db by lia.
  fold (read_zset "ZRANGEBYSCORE" t2
          (zinterstore t2 t1 getCapacityRankingKey 0 1 st1).2).
  unfold zinterstore. unfold st1 at 1. rewrite radius_stored by done.
  rewrite (read_zset_same _ getCapacityRankingKey st st1)
    by (apply Hs1; by intros E%list_elem_of_singleton).
  pose proof (read_zset_view "ZINTERSTORE" getCapacityRankingKey st) as Hv.
  fold (capacity_ranking st) in Hv.
  destruct (read_zset _ getCapacityRankingKey st) as [r|e]; cbn [snd].
  - by rewrite read_zset_store_zset, <- Hv.
  - rewrite read_zset_absent.
    + unfold within_radius_ranked. by rewrite Hv, intersection_with_empty_r.
    + destruct (Hs1 t2) as [-> _]; [|done].
      by intros E%list_elem_of_singleton.
Qed.

(** A member of the intersection carries the score that it has in the
    capacity ranking, and is a member of the geo index within the radius. *)
Lemma within_radius_ranked_lookup st lat lng radius unit id x :
  within_radius_ranked st lat lng radius unit !! id = Some x ↔
  ∃ within g s,
    geoWithin (Number.to_string lng) (Number.to_string lat)
              (Number.to_string radius) unit = Some within ∧
    geo_index st !! id = Some g ∧ within g = true ∧
    capacity_ranking st !! id = Some s ∧ x = (0 * g + 1 * s)%Q.
Proof.
  unfold within_radius_ranked, within_radius.
  rewrite lookup_intersection_with. split.
  - destruct (geoWithin _ _ _ _) as [within|]; [|by rewrite lookup_empty].
    destruct (filter _ _ !! id) as [g|] eqn:Eg; [|done].
    apply map_lookup_filter_Some in Eg as [Eg Hw]. cbn in Hw.
    destruct (capacity_ranking st !! id) as [s|]; [|done].
    intros [= <-]. exists within, g, s. split_and!; try done.
    by apply Is_true_true.
  - intros (within & g & s & -> & Eg & Hw & -> & ->).
    erewrite (proj2 (map_lookup_filter_Some _ _ _ _)); [done|].
    split; [done|]. cbn. by apply Is_true_true.
Qed.

Lemma weights_keep_ranking_score (g s : Q) : (0 * g + 1 * s == s)%Q.
Proof. ring. Qed.

End ExcessCapacitySets.

Section ExcessCapacityClaim.
Context `{KeyGenerator} `{GeoIndex} `{!KeyGeneratorLaws}.
Import Redis StoreFacts.

Lemma stored_site_same st st' id :
  db st' !! getSiteHashKey id = db st !! getSiteHashKey id →
  stored_site st' id = stored_site st id.
Proof. intros E. unfold stored_site. by rewrite E. Qed.

Lemma site_keys_untouched t1 t2 st st' id :
  same_except [temporaryKey t1; temporaryKey t2] st st' →
  db st' !! getSiteHashKey id = db st !! getSiteHashKey id.
Proof.
  intros Hs. apply Hs.
  intros [E|[E|[]%elem_of_nil]%elem_of_cons]%elem_of_cons;
    by apply site_hash_key_not_temporary in E.
Qed.

(** C1, amended.  In a store where the two temporary keys are fresh, no
    site hash key holds a sorted set and no site hash has a field called
    hasOwnProperty, [findByGeoWithExcessCapacity] returns the stored sites of
    exactly the ids that are in the geo index within the radius and in the
    capacity ranking with a score of at least 0.2, each once; the score that
    the threshold is applied to is the score of the capacity ranking, so an
    id outside the radius is never among them. *)
Theorem findByGeoWithExcessCapacity_spec lat lng radius unit w :
  let t1 := temporaryKey (generated w) in
  let t2 := temporaryKey (S (generated w)) in
  db (redis w) !! t1 = None → db (redis w) !! t2 = None →
  site_keys_typed (redis w) →
  site_records_plain (redis w) →
  ∃ ids w',
    findByGeoWithExcessCapacity lat lng radius unit w
      = (Return (omap (stored_site (redis w)) ids), w') ∧
    NoDup ids ∧
    (∀ id, id ∈ ids ↔
       has_excess_capacity_nearby (redis w) lat lng radius
         (Js.toLowerCase unit) id) ∧
    (∀ id x, zset_at t2 (redis w') !! id = Some x →
       ∃ s, capacity_ranking (redis w) !! id = Some s ∧ (x == s)%Q).
Proof.
  intros t1 t2 Hf1 Hf2 Ht Hp.
  assert (t1 ≠ t2) as Hne.
  { intros E. apply temporary_key_inj in E. lia. }
  assert (getCapacityRankingKey ≠ t1) as Hr
    by apply ranking_key_not_temporary.
  set (st' := after_set_operations t1 t2 lat lng radius
                (Js.toLowerCase unit) (redis w)).
  pose proof (after_set_operations_frame t1 t2 lat lng radius
                (Js.toLowerCase unit) (redis w)) as Hs. fold st' in Hs.
  pose proof (intersection_stored t1 t2 lat lng radius (Js.toLowerCase unit)
                (redis w) Hne Hr Hf1 Hf2) as Hz. fold st' in Hz.
  set (z := within_radius_ranked (redis w) lat lng radius
              (Js.toLowerCase unit)) in *.
  set (ids := (filter (λ e, Is_true (Qle_bool capacityThreshold e.2))
                 (ranked z)).*1).
  exists ids, (World st' (S (S (generated w)))).
  split_and!.
  - unfold findByGeoWithExcessCapacity, getTemporaryKey, await, execAsync,
      on_store, zrangebyscoreAsync, read_store.
    cbn [exec_batch exec_command integer_reply fst snd redis generated].
    fold t1 t2. fold (after_set_operations t1 t2 lat lng radius
                        (Js.toLowerCase unit) (redis w)). fold st'.
    unfold zrangebyscore. rewrite Hz. fold ids.
    rewrite fetch_sites_typed; cbn [redis].
    + do 2 f_equal. apply list_omap_ext, Forall2_same_length_lookup_2; [done|].
      intros i x y Hx Hy. assert (x = y) as <- by congruence.
      apply stored_site_same. eapply site_keys_untouched, Hs.
    + intros id z'. erewrite site_keys_untouched by apply Hs. apply Ht.
    + intros id h. erewrite site_keys_untouched by apply Hs. apply Hp.
  - apply NoDup_ranked_filter.
  - intros id. unfold ids. rewrite elem_of_ranked_filter.
    unfold has_excess_capacity_nearby. split.
    + intros (x & (within & g & s & Hw & Hg & Hin & Hrank & ->)
                   %within_radius_ranked_lookup & Hx).
      exists within, g, s. split_and!; try done.
      apply Is_true_true, Qle_bool_iff in Hx. cbn in Hx.
      by rewrite weights_keep_ranking_score in Hx.
    + intros (within & g & s & Hw & Hg & Hin & Hrank & Hle).
      exists (0 * g + 1 * s)%Q. split.
      * apply within_radius_ranked_lookup. by exists within, g, s.
      * apply Is_true_true, Qle_bool_iff. cbn.
        by rewrite weights_keep_ranking_score.
  - intros id x. cbn [redis].
    pose proof (read_zset_view "ZRANGEBYSCORE" t2 st') as Hv.
    rewrite Hz in Hv. rewrite Hv.
    intros (within & g & s & _ & _ & _ & Hrank & ->)
             %within_radius_ranked_lookup.
    exists s. split; [done|]. apply weights_keep_ranking_score.
Qed.

End ExcessCapacityClaim.

Section InsertClaims.
Context `{KeyGenerator} `{GeoIndex}.
Import Redis StoreFacts.

(** C4. After an insert that returns, the store holds, under the key of
    the site's id, a hash with every field of the flat record, and the geo
    index holds the site's id at the position of its longitude and
    latitude. *)
Theorem insert_writes_hash_and_geo site w key w' :
  insert site w = (Return key, w') →
  key = getSiteHashKey (site_id site) ∧
  ∃ flat stored lng lat position index,
    flatten site = Return flat ∧
    db (redis w') !! key = Some (RHash stored) ∧
    (∀ field v, flat !! field = Some v →
                stored !! field = Some (Js.ToString v)) ∧
    Js.get (member site "coordinate") "lng" = Return lng ∧
    Js.get (member site "coordinate") "lat" = Return lat ∧
    geoEncode (Js.ToString lng) (Js.ToString lat) = Some position ∧
    db (redis w') !! getSiteGeoKey = Some (RZSet index) ∧
    index !! site_id site = Some position.
Proof.
  intros (-> & flat & old & c & lng & lat & g & z & Hf & _ & Ho & Hc & Hlng
          & Hlat & Hg & Hz & ->)%insert_returns.
  split; [done|]. cbv zeta in Hz.
  set (key := getSiteHashKey (site_id site)) in *.
  assert (getSiteGeoKey ≠ key) as Hne.
  { intros E. unfold read_zset in Hz. rewrite E in Hz. cbn in Hz.
    by rewrite lookup_insert_eq in Hz. }
  exists flat, ((Js.ToString <$> flat) ∪ old), lng, lat, g, (<[site_id site := g]> z).
  unfold member. rewrite Hc. cbn [default from_option id redis db update_key].
  split_and!; try done.
  - by rewrite lookup_insert_ne, lookup_insert_eq.
  - intros field v Hv. apply lookup_union_Some_l. by rewrite lookup_fmap, Hv.
  - by rewrite lookup_insert_eq.
  - by rewrite lookup_insert_eq.
Qed.

End InsertClaims.

Section ReadClaims.
Context `{KeyGenerator} `{GeoIndex}.
Import Redis StoreFacts.


(** C7, amended.  Decode itself throws on the not-found sentinel; it is
    the callers that deal with the sentinel: [findById] returns it as it
    is, and the loops of [findAll], [findByGeo] and
    [findByGeoWithExcessCapacity] skip it. *)
Theorem sentinel_handled_by_callers :
  (∃ e, remap VNull = Throw e) ∧
  (∀ id w, hgetallAsync (getSiteHashKey (Js.ToString id)) w = (Return VNull, w) →
           findById id w = (Return VNull, w)) ∧
  (∀ rest, remap_results (VNull :: rest) = remap_results rest) ∧
  (∀ id rest w, hgetallAsync (getSiteHashKey id) w = (Return VNull, w) →
                fetch_sites (id :: rest) w = fetch_sites rest w).
Proof.
  split_and!.
  - by eexists.
  - intros id w E. unfold findById, await. by rewrite E.
  - done.
  - intros id rest w E. cbn [fetch_sites]. unfold await at 1. by rewrite E.
Qed.

(** C9. [findByGeo] and [findByGeoWithExcessCapacity] give the same outcome
    for two spellings of the unit that differ in letter case only. *)
Theorem unit_case_insensitive lat lng radius unit1 unit2 w :
  Js.toLowerCase unit1 = Js.toLowerCase unit2 →
  findByGeo lat lng radius unit1 w = findByGeo lat lng radius unit2 w ∧
  findByGeoWithExcessCapacity lat lng radius unit1 w
  = findByGeoWithExcessCapacity lat lng radius unit2 w.
Proof.
  intros E. unfold findByGeo, findByGeoWithExcessCapacity. by rewrite E.
Qed.

Lemma findById_world id w : (findById id w).2 = w.
Proof.
  unfold findById, await, hgetallAsync, read_store.
  destruct (let? reply := _ in _) as [v|e]; [|done].
  unfold sync, resolve. by destruct v.
Qed.

Lemma findAll_world w : (findAll w).2 = w.
Proof.
  unfold findAll, await, zrangeAsync, read_store.
  destruct (zrange _ _ _ _) as [ids|e]; [|done].
  unfold execAsync, on_store.
  pose proof (exec_batch_hgetall_store ids 0 (redis w)) as Hst.
  destruct (exec_batch 0 _ (redis w)) as [results st]. cbn in Hst. subst st.
  unfold sync. cbn. apply world_eta.
Qed.

Lemma findByGeo_world lat lng radius unit w :
  (findByGeo lat lng radius unit w).2 = w.
Proof.
  unfold findByGeo, await, georadiusAsync, read_store.
  destruct (georadius _ _ _ _ _ _) as [ids|e]; [|done].
  apply fetch_sites_world.
Qed.

End ReadClaims.

Section FrameClaims.
Context `{KeyGenerator} `{GeoIndex} `{!KeyGeneratorLaws}.
Import Redis StoreFacts.

Lemma intersection_with_empty_l {A} (f : A → A → option A)
    (m : gmap string A) :
  intersection_with f ∅ m = ∅.
Proof.
  apply map_eq. intros k. by rewrite lookup_intersection_with, !lookup_empty.
Qed.

(** The first temporary key, once populated, is still there after the
    batch. *)
Lemma radius_kept t1 t2 lat lng radius unit st :
  t1 ≠ t2 →
  within_radius st lat lng radius unit ≠ ∅ →
  db (after_set_operations t1 t2 lat lng radius unit st) !! t1
  = Some (RZSet (within_radius st lat lng radius unit)).
Proof.
  intros Hne Hz. unfold after_set_operations. cbv zeta.
  rewrite !expire_db by lia.
  destruct (zinterstore_frame t2 t1 getCapacityRankingKey 0 1
              (georadius_store getSiteGeoKey (Number.to_string lng)
                 (Number.to_string lat) (Number.to_string radius) unit t1 st).2
              t1) as [-> _].
  { by intros E%list_elem_of_singleton. }
  unfold georadius_store.
  pose proof (in_radius_view lat lng radius unit st) as Hv.
  destruct (in_radius _ _ _ _ _ _) as [z|e]; [|done]. subst z.
  unfold store_zset. cbn [snd db].
  rewrite (proj2 (is_empty_false _) Hz). by rewrite lookup_insert_eq.
Qed.

(** So is the second. *)
Lemma intersection_kept t1 t2 lat lng radius unit st :
  t1 ≠ t2 → getCapacityRankingKey ≠ t1 →
  within_radius_ranked st lat lng radius unit ≠ ∅ →
  db (after_set_operations t1 t2 lat lng radius unit st) !! t2
  = Some (RZSet (within_radius_ranked st lat lng radius unit)).
Proof.
  intros Hne Hr Hz.
  assert (within_radius st lat lng radius unit ≠ ∅) as Hz1.
  { intros E. apply Hz. unfold within_radius_ranked.
    by rewrite E, intersection_with_empty_l. }
  pose proof (radius_kept t1 t2 lat lng radius unit st Hne Hz1) as Hk.
  unfold after_set_operations in *. cbv zeta in *.
  rewrite !expire_db in * by lia.
  set (st1 := (georadius_store _ _ _ _ _ _ _).2) in *.
  assert (same_except [t1] st st1) as Hs1 by apply georadius_store_frame.
  assert (db st1 !! t1 = Some (RZSet (within_radius st lat lng radius unit)))
    as Ht1.
  { destruct (zinterstore_frame t2 t1 getCapacityRankingKey 0 1 st1 t1)
      as [<- _]; [by intros E%list_elem_of_singleton|done]. }
  unfold zinterstore. unfold read_zset at 1. rewrite Ht1.
  rewrite (read_zset_same _ getCapacityRankingKey st st1)
    by (apply Hs1; by intros E%list_elem_of_singleton).
  pose proof (read_zset_view "ZINTERSTORE" getCapacityRankingKey st) as Hv.
  fold (capacity_ranking st) in Hv.
  destruct (read_zset _ getCapacityRankingKey st) as [r|e].
  - subst r. fold (within_radius_ranked st lat lng radius unit).
    unfold store_zset. cbn [snd db].
    rewrite (proj2 (is_empty_false _) Hz). by rewrite lookup_insert_eq.
  - exfalso. apply Hz. unfold within_radius_ranked.
    by rewrite Hv, intersection_with_empty_r.
Qed.

(** Insert leaves the geo-index entries of the other sites as they are. *)
Lemma insert_keeps_other_members site w r w' m :
  insert site w = (r, w') → m ≠ site_id site →
  geo_index (redis w') !! m = geo_index (redis w) !! m.
Proof.
  unfold insert, site_id, await, sync, reject, resolve, hmsetAsync,
    geoaddAsync, on_store, hmset, geoadd.
  set (key := getSiteHashKey _). intros Hrun Hm. revert Hrun.
  assert (key ≠ getSiteGeoKey) as Hkg by apply site_hash_key_not_geo.
  destruct (flatten site) as [flat|e]; [|by intros [= <- <-]].
  destruct (is_empty _); [by intros [= <- <-]|].
  destruct (read_hash _ _ _) as [old|e]; [|by intros [= <- <-]].
  set (st1 := update_key key _ (redis w)).
  assert (geo_index st1 = geo_index (redis w)) as Hg1.
  { unfold geo_index, zset_at, st1. cbn [db update_key].
    by rewrite lookup_insert_ne. }
  destruct (Js.has_own_property _ _);
    [|intros [= <- <-]; cbn [redis]; by rewrite Hg1].
  destruct (negb _); [intros [= <- <-]; cbn [redis]; by rewrite Hg1|].
  destruct (Js.get _ "lng"); [|intros [= <- <-]; cbn [redis]; by rewrite Hg1].
  destruct (Js.get _ "lat"); [|intros [= <- <-]; cbn [redis]; by rewrite Hg1].
  cbn [redis generated].
  destruct (geoEncode _ _); [|intros [= <- <-]; cbn [redis]; by rewrite Hg1].
  pose proof (read_zset_view "GEOADD" getSiteGeoKey st1) as Hv.
  destruct (read_zset _ _ _) as [z|e];
    [|intros [= <- <-]; cbn [redis]; by rewrite Hg1].
  intros [= <- <-]. cbn [redis]. rewrite <- Hg1. unfold geo_index in *.
  rewrite <- Hv. unfold zset_at at 1. cbn [db update_key].
  rewrite lookup_insert_eq. by rewrite lookup_insert_ne.
Qed.

(** C8, amended.  The three plain reads leave the world as it is.
    [findByGeoWithExcessCapacity] takes two temporary keys and changes the
    store at these two keys only; each of them that exists when the call
    ends expires in 30 seconds, and each of them that the batch populated is
    still there; site hashes, the geo index and the capacity ranking are as
    before.  [insert] changes the hash of its site and the geo index only,
    removes no key, and leaves the geo-index entries of the other sites and
    the capacity ranking as they are. *)
Theorem dao_frame :
  (∀ id w, (findById id w).2 = w) ∧
  (∀ w, (findAll w).2 = w) ∧
  (∀ lat lng radius unit w, (findByGeo lat lng radius unit w).2 = w) ∧
  (∀ lat lng radius unit w,
     let t1 := temporaryKey (generated w) in
     let t2 := temporaryKey (S (generated w)) in
     let st := redis w in
     let w' := (findByGeoWithExcessCapacity lat lng radius unit w).2 in
     generated w' = S (S (generated w)) ∧
     same_except [t1; t2] st (redis w') ∧
     (∀ t, t ∈ [t1; t2] → is_Some (db (redis w') !! t) →
           expires (redis w') !! t = Some 30) ∧
     (within_radius st lat lng radius (Js.toLowerCase unit) ≠ ∅ →
        db (redis w') !! t1
        = Some (RZSet (within_radius st lat lng radius (Js.toLowerCase unit)))) ∧
     (within_radius_ranked st lat lng radius (Js.toLowerCase unit) ≠ ∅ →
        db (redis w') !! t2
        = Some (RZSet (within_radius_ranked st lat lng radius
                         (Js.toLowerCase unit)))) ∧
     (∀ id, db (redis w') !! getSiteHashKey id = db st !! getSiteHashKey id) ∧
     db (redis w') !! getSiteGeoKey = db st !! getSiteGeoKey ∧
     db (redis w') !! getCapacityRankingKey = db st !! getCapacityRankingKey) ∧
  (∀ site w,
     let w' := (insert site w).2 in
     same_except [getSiteHashKey (site_id site); getSiteGeoKey]
                 (redis w) (redis w') ∧
     (∀ k, is_Some (db (redis w) !! k) → is_Some (db (redis w') !! k)) ∧
     (∀ m, m ≠ site_id site →
           geo_index (redis w') !! m = geo_index (redis w) !! m) ∧
     db (redis w') !! getCapacityRankingKey
     = db (redis w) !! getCapacityRankingKey).
Proof.
  split_and!.
  - apply findById_world.
  - apply findAll_world.
  - apply findByGeo_world.
  - intros lat lng radius unit w t1 t2 st w'. unfold w'.
    rewrite excess_capacity_world. cbn [redis generated]. fold t1 t2 st.
    assert (t1 ≠ t2) as Hne.
    { intros E. apply temporary_key_inj in E. lia. }
    pose proof (after_set_operations_frame t1 t2 lat lng radius
                  (Js.toLowerCase unit) st) as Hs.
    split_and!; try done.
    + apply after_set_operations_expires.
    + by apply radius_kept.
    + apply intersection_kept; [done|]. apply ranking_key_not_temporary.
    + intros id. eapply site_keys_untouched, Hs.
    + apply Hs.
      intros [E|[E|[]%elem_of_nil]%elem_of_cons]%elem_of_cons;
        by apply geo_key_not_temporary in E.
    + apply Hs.
      intros [E|[E|[]%elem_of_nil]%elem_of_cons]%elem_of_cons;
        by apply ranking_key_not_temporary in E.
  - intros site w w'. unfold w'.
    destruct (insert site w) as [r w''] eqn:E. cbn [snd].
    destruct (insert_frame _ _ _ _ E) as [_ Hs].
    split_and!; [done| | |].
    + intros k. by eapply insert_keeps_keys.
    + intros m. by eapply insert_keeps_other_members.
    + apply Hs.
      intros [E'|[E'|[]%elem_of_nil]%elem_of_cons]%elem_of_cons.
      * symmetry in E'. by apply site_hash_key_not_ranking in E'.
      * symmetry in E'. by apply geo_key_not_ranking in E'.
Qed.

End FrameClaims.

Section FindAllClaim.
Context `{KeyGenerator} `{GeoIndex} `{!KeyGeneratorLaws}.
Import Redis StoreFacts.

Lemma site_key_ne (s s' : gmap string value) :
  site_id s ≠ site_id s' →
  getSiteHashKey (site_id s) ≠ getSiteHashKey (site_id s').
Proof. intros Hne E. by apply site_hash_key_inj in E. Qed.

(** The store after a run of inserts of sites with distinct ids whose
    hashes were not there before. *)
Lemma insert_all_stored sites : ∀ w keys w',
  NoDup (site_id <$> sites) →
  insert_all sites w = (Return keys, w') →
  (∀ s, s ∈ sites → db (redis w) !! getSiteHashKey (site_id s) = None) →
  (∀ h, db (redis w) !! getSiteGeoKey ≠ Some (RHash h)) →
  (∀ s, s ∈ sites → ∃ flat,
      flatten s = Return flat ∧ Js.ToString <$> flat ≠ ∅ ∧
      db (redis w') !! getSiteHashKey (site_id s)
      = Some (RHash (Js.ToString <$> flat))) ∧
  (∀ id, is_Some (geo_index (redis w') !! id) ↔
         is_Some (geo_index (redis w) !! id) ∨ id ∈ site_id <$> sites) ∧
  (∀ k, k ≠ getSiteGeoKey →
        (∀ s, s ∈ sites → k ≠ getSiteHashKey (site_id s)) →
        db (redis w') !! k = db (redis w) !! k) ∧
  (∀ h, db (redis w') !! getSiteGeoKey ≠ Some (RHash h)).
Proof.
  induction sites as [|s rest IH]; intros w keys w' Hnd Hrun Hfresh Hgeo.
  { injection Hrun as <- <-. split_and!; try done.
    - by intros s ?%elem_of_nil.
    - intros id. rewrite fmap_nil, elem_of_nil. by intuition. }
  cbn [insert_all] in Hrun. unfold await at 1 in Hrun.
  destruct (insert s w) as [[key|e] w1] eqn:Es; [|done].
  unfold await in Hrun.
  destruct (insert_all rest w1) as [[keys'|e] w2] eqn:Er; [|done].
  injection Hrun as <- <-.
  rewrite fmap_cons in Hnd. apply NoDup_cons in Hnd as [Hs Hnd].
  apply insert_returns in Es
    as (-> & flat & old & c & lng & lat & g & z & Hf & Hne & Ho & Hc & Hlng
        & Hlat & Hg & Hz & ->).
  cbv zeta in Hz.
  set (key := getSiteHashKey (site_id s)) in *.
  assert (db (redis w) !! key = None) as Hk by (apply Hfresh; by left).
  assert (old = ∅) as ->.
  { unfold read_hash in Ho. rewrite Hk in Ho. by injection Ho. }
  rewrite (right_id_L ∅ (∪)) in *.
  assert (key ≠ getSiteGeoKey) as Hkg by apply site_hash_key_not_geo.
  assert (z = geo_index (redis w)) as ->.
  { pose proof (read_zset_view "GEOADD" getSiteGeoKey
                  (update_key key (RHash (Js.ToString <$> flat)) (redis w)))
      as Hv.
    rewrite Hz in Hv. rewrite <- Hv. unfold zset_at, geo_index, zset_at.
    cbn [db update_key]. by rewrite lookup_insert_ne. }
  set (w1 := World _ _) in *.
  assert (∀ k, k ≠ getSiteGeoKey → k ≠ key →
               db (redis w1) !! k = db (redis w) !! k) as Hframe1.
  { intros k ? ?. unfold w1. cbn. by rewrite !lookup_insert_ne. }
  assert (db (redis w1) !! getSiteGeoKey
          = Some (RZSet (<[site_id s := g]> (geo_index (redis w))))) as Hgeo1.
  { unfold w1. cbn. by rewrite lookup_insert_eq. }
  destruct (IH w1 keys' w2 Hnd Er) as (Ha & Hb & Hc' & Hd).
  { intros s' Hin. rewrite Hframe1.
    - apply Hfresh. by right.
    - apply site_hash_key_not_geo.
    - apply site_key_ne. intros E. apply Hs. rewrite <- E.
      by apply list_elem_of_fmap_2. }
  { intros h. by rewrite Hgeo1. }
  split_and!; [| | |done].
  - intros s' [->|Hin]%elem_of_cons; [|by apply Ha].
    exists flat. split_and!; [done..|].
    rewrite Hc'; [|done|].
    + unfold w1. cbn. fold key. by rewrite lookup_insert_ne, lookup_insert_eq.
    + intros s' Hin. apply site_key_ne. intros E. apply Hs. rewrite E.
      by apply list_elem_of_fmap_2.
  - intros id. rewrite Hb, fmap_cons, elem_of_cons.
    unfold geo_index at 1, zset_at. rewrite Hgeo1.
    rewrite lookup_insert. case_decide as Hid.
    + subst id. split; [intros _; right; by left|intros _; left; by eexists].
    + split.
      * intros [?|?]; [by left|right; by right].
      * intros [?|[?|?]]; [by left|by subst|by right].
  - intros k Hk1 Hk2. rewrite Hc', Hframe1; [done|done| |done|].
    + apply Hk2. by left.
    + intros s' Hin. apply Hk2. by right.
Qed.

Lemma Forall2_omap_fmap {A} (P : A → value → Prop) (f : string → option value)
    (g : A → string) (l : list A) :
  (∀ a, a ∈ l → ∃ v, f (g a) = Some v ∧ P a v) →
  Forall2 P l (omap f (g <$> l)).
Proof.
  induction l as [|a l IH]; intros Hl; [by constructor|].
  destruct (Hl a) as (v & Hv & HP); [by left|].
  cbn [fmap list_fmap omap list_omap]. rewrite Hv. constructor; [done|].
  apply IH. intros a' Hin. apply Hl. by right.
Qed.

(** C5, amended.  In a store where the geo-index key holds no hash, no
    site hash key holds a sorted set and no site hash has a field called
    hasOwnProperty, [findAll] returns, for the ids that ZRANGE gives for the
    geo index and in that order, the decoded hash of every id that has one,
    leaving out the ids that have none.  After sites with distinct ids have
    been inserted into an empty store, [findAll] returns as many sites:
    the decoded stored form of each, in some order. *)
Theorem findAll_spec :
  (∀ w, (∀ h, db (redis w) !! getSiteGeoKey ≠ Some (RHash h)) →
        site_keys_typed (redis w) →
        site_records_plain (redis w) →
        ∃ ids, zrange getSiteGeoKey 0 (-1) (redis w) = Return ids ∧
               findAll w = (Return (omap (stored_site (redis w)) ids), w)) ∧
  (∀ sites n keys w',
     NoDup (site_id <$> sites) →
     insert_all sites (World empty_store n) = (Return keys, w') →
     ∃ found decoded,
       findAll w' = (Return found, w') ∧
       Forall2 (λ site v, decode_stored site = Return v) sites decoded ∧
       found ≡ₚ decoded).
Proof.
  split.
  - intros w Hg Ht Hp. exists (ranked (geo_index (redis w))).*1. split.
    + unfold zrange, read_zset, geo_index, zset_at.
      destruct (db (redis w) !! getSiteGeoKey) as [[h|z]|] eqn:E;
        rewrite ?rank_range_all; try done. by destruct (Hg h).
    + by apply findAll_typed.
  - intros sites n keys w' Hnd Hrun.
    destruct (insert_all_stored sites _ _ _ Hnd Hrun) as (Ha & Hb & Hc & Hd);
      [done|done|].
    assert (site_keys_typed (redis w')) as Ht.
    { intros id z.
      destruct (decide (id ∈ site_id <$> sites))
        as [(s & -> & Hin)%list_elem_of_fmap|Hout].
      - destruct (Ha s Hin) as (flat & _ & _ & ->). done.
      - rewrite Hc; [done|apply site_hash_key_not_geo|].
        intros s Hin E. apply site_hash_key_inj in E. subst id.
        by apply Hout, list_elem_of_fmap_2. }
    assert (site_records_plain (redis w')) as Hp.
    { intros id h.
      destruct (decide (id ∈ site_id <$> sites))
        as [(s & -> & Hin)%list_elem_of_fmap|Hout].
      - destruct (Ha s Hin) as (flat & Hf & _ & ->). intros [= <-].
        rewrite lookup_fmap.
        by rewrite (proj2 (flatten_returns_plain _ _ Hf)).
      - rewrite Hc; [done|apply site_hash_key_not_geo|].
        intros s Hin E. apply site_hash_key_inj in E. subst id.
        by apply Hout, list_elem_of_fmap_2. }
    exists (omap (stored_site (redis w')) (ranked (geo_index (redis w'))).*1),
           (omap (stored_site (redis w')) (site_id <$> sites)).
    split_and!.
    + by apply findAll_typed.
    + apply Forall2_omap_fmap. intros s Hin.
      destruct (Ha s Hin) as (flat & Hf & Hne & Hk).
      unfold stored_site, decode_stored. rewrite Hk, Hf.
      rewrite (proj2 (is_empty_false _) Hne). cbn [result_bind].
      rewrite stored_fields_hash_object.
      destruct (remap_object_returns (stored_fields flat)) as [r ->]; [|eauto].
      apply stored_fields_plain, (flatten_returns_plain _ _ Hf).
    + apply omap_Permutation, NoDup_Permutation.
      * apply NoDup_ranked_fst.
      * done.
      * intros id. rewrite list_elem_of_fmap. split.
        -- intros ([id' x] & -> & Hin%elem_of_ranked).
           destruct (proj1 (Hb id')) as [[? E]|]; [by eexists| |done].
           unfold geo_index, zset_at, empty_store in E. cbn [redis db] in E.
           by rewrite !lookup_empty in E.
        -- intros Hin. destruct (proj2 (Hb id)) as [x Hx]; [by right|].
           exists (id, x). split; [done|]. by apply elem_of_ranked.
Qed.

End FindAllClaim.

(** ** The concrete key generator obeys the laws *)

Module ExampleFacts.
Import Example Digits DigitsFacts.

Lemma index_name_inj : Inj (=) (=) Js.index_name.
Proof.
  intros n m E. unfold Js.index_name in E.
  apply (f_equal list_ascii_of_string) in E.
  rewrite !list_ascii_of_string_of_list_ascii in E.
  assert (Inj (=) (=) to_ascii) as Hinj by (intros [] []; by intros [=]).
  apply (inj (fmap to_ascii)) in E.
  apply (f_equal to_N) in E. rewrite !to_of_N in E. lia.
Qed.

Lemma keys_laws : @KeyGeneratorLaws keys.
Proof.
  split; cbv [getSiteHashKey getSiteGeoKey getCapacityRankingKey temporaryKey
              keys String.append].
  - by intros a b [= ->].
  - intros n m [= E]. by apply index_name_inj.
  - by intros id.
  - by intros id.
  - by intros id n.
  - done.
  - by intros n.
  - by intros n.
Qed.

Lemma three_sites_typed : @site_keys_typed keys three_sites.
Proof.
  intros id z. cbn. unfold hash_of.
  rewrite !lookup_insert_ne by done.
  rewrite !lookup_insert. repeat case_decide; try done.
Qed.

Lemma three_sites_geo_typed h :
  db three_sites !! @getSiteGeoKey keys ≠ Some (RHash h).
Proof. done. Qed.

Lemma site_plain id panels lng lat :
  plain_site (site id panels lng lat)
             (<["lat" := num lat]> (<["lng" := num lng]> ∅)).
Proof.
  split_and!; try done.
  intros name v Hl Hn. unfold site in Hl.
  repeat (apply lookup_insert_Some in Hl as [[Hk <-]|[_ Hl]];
          [first [done|congruence]|]).
  by rewrite lookup_empty in Hl.
Qed.

Lemma three_sites_plain : @site_records_plain keys three_sites.
Proof.
  intros id h. cbn. unfold hash_of.
  rewrite !lookup_insert_ne by done.
  rewrite !lookup_insert. repeat case_decide; try done; by intros [= <-].
Qed.

End ExampleFacts.

(** ** The claims at concrete inputs *)

Module Witnesses.
Import Example ExampleFacts.

(** Of the three sites, site 1 only is near and has excess capacity: site 2
    is near but below the threshold, site 3 is above it but far away. *)
Example excess_capacity_example :
  (@findByGeoWithExcessCapacity keys geo Zero Zero ten "KM" w3).1
  = Return [VObj (site 1 100 2 3)].
Proof. by vm_compute. Qed.

Lemma findByGeoWithExcessCapacity_spec_witness :
  db (redis w3) !! @temporaryKey keys 0 = None ∧
  db (redis w3) !! @temporaryKey keys 1 = None ∧
  @site_keys_typed keys (redis w3) ∧
  @site_records_plain keys (redis w3) ∧
  ∃ ids w',
    @findByGeoWithExcessCapacity keys geo Zero Zero ten "KM" w3
      = (Return (omap (@stored_site keys (redis w3)) ids), w') ∧
    NoDup ids ∧
    (∀ id, id ∈ ids ↔
       @has_excess_capacity_nearby keys geo (redis w3) Zero Zero ten
         (Js.toLowerCase "KM") id) ∧
    (∀ id x, zset_at (@temporaryKey keys 1) (redis w') !! id = Some x →
       ∃ s, @capacity_ranking keys (redis w3) !! id = Some s ∧ (x == s)%Q).
Proof.
  split_and!;
    [by vm_compute|by vm_compute|apply three_sites_typed
    |apply three_sites_plain|].
  apply (@findByGeoWithExcessCapacity_spec keys geo keys_laws
           Zero Zero ten "KM" w3);
    [by vm_compute|by vm_compute|apply three_sites_typed
    |apply three_sites_plain].
Defined.

Lemma decode_encode_round_trip_witness :
  let one := Number.of_Z 1 in
  let hundred := Number.of_Z 100 in
  let c := Finite false [Digits.D4; Digits.D5] 1 in
  let la := Number.of_Z 3 in
  let lo := Number.of_Z 2 in
  site 1 100 2 3 !! "hasOwnProperty" = None ∧
  ∃ r r',
    decode_stored (site 1 100 2 3) = Return (VObj r) ∧
    decode_encoded (site 1 100 2 3) = Return (VObj r') ∧
    r !! "id" = site 1 100 2 3 !! "id" ∧
    r' !! "id" = site 1 100 2 3 !! "id" ∧
    r !! "panels" = site 1 100 2 3 !! "panels" ∧
    r' !! "panels" = site 1 100 2 3 !! "panels" ∧
    r !! "capacity" = site 1 100 2 3 !! "capacity" ∧
    r' !! "capacity" = site 1 100 2 3 !! "capacity" ∧
    r !! "coordinate" = site 1 100 2 3 !! "coordinate" ∧
    r' !! "coordinate" = site 1 100 2 3 !! "coordinate".
Proof.
  intros one hundred c la lo. split; [done|].
  apply (decode_encode_round_trip (site 1 100 2 3) one hundred c la lo);
    by vm_compute.
Defined.

Lemma insert_writes_hash_and_geo_witness :
  let s := site 1 100 2 3 in
  let w' := (@insert keys geo s empty_world).2 in
  @insert keys geo s empty_world = (Return "sites:info:1", w') ∧
  "sites:info:1" = @getSiteHashKey keys (site_id s) ∧
  ∃ flat stored lng lat position index,
    flatten s = Return flat ∧
    db (redis w') !! "sites:info:1" = Some (RHash stored) ∧
    (∀ field v, flat !! field = Some v →
                stored !! field = Some (Js.ToString v)) ∧
    Js.get (member s "coordinate") "lng" = Return lng ∧
    Js.get (member s "coordinate") "lat" = Return lat ∧
    @geoEncode geo (Js.ToString lng) (Js.ToString lat) = Some position ∧
    db (redis w') !! @getSiteGeoKey keys = Some (RZSet index) ∧
    index !! site_id s = Some position.
Proof.
  intros s w'.
  assert (@insert keys geo s empty_world = (Return "sites:info:1", w')) as E
    by by vm_compute.
  split; [exact E|].
  exact (@insert_writes_hash_and_geo keys geo s empty_world "sites:info:1" w' E).
Defined.

Lemma findAll_spec_witness :
  let sites := [site 1 100 2 3; site 2 200 3 3] in
  let keys' := ["sites:info:1"; "sites:info:2"] in
  let w' := (@insert_all keys geo sites empty_world).2 in
  ((∀ h, db (redis w3) !! @getSiteGeoKey keys ≠ Some (RHash h)) ∧
   @site_keys_typed keys (redis w3) ∧
   @site_records_plain keys (redis w3) ∧
   ∃ ids, Redis.zrange (@getSiteGeoKey keys) 0 (-1) (redis w3) = Return ids ∧
          @findAll keys geo w3
          = (Return (omap (@stored_site keys (redis w3)) ids), w3)) ∧
  (NoDup (site_id <$> sites) ∧
   @insert_all keys geo sites (World empty_store 0) = (Return keys', w') ∧
   ∃ found decoded,
     @findAll keys geo w' = (Return found, w') ∧
     Forall2 (λ site v, decode_stored site = Return v) sites decoded ∧
     found ≡ₚ decoded).
Proof.
  intros sites keys' w'.
  destruct (@findAll_spec keys geo keys_laws) as [Hall Hinserted].
  split.
  - split_and!;
      [apply three_sites_geo_typed|apply three_sites_typed
      |apply three_sites_plain|].
    apply Hall;
      [apply three_sites_geo_typed|apply three_sites_typed
      |apply three_sites_plain].
  - assert (NoDup (site_id <$> sites)) as Hnd.
    { vm_compute. apply NoDup_cons. split; [|apply NoDup_singleton].
      by intros E%list_elem_of_singleton. }
    assert (@insert_all keys geo sites (World empty_store 0)
            = (Return keys', w')) as E by by vm_compute.
    split_and!; [done|done|]. by apply (Hinserted sites 0%nat keys' w').
Defined.


Lemma remap_coordinate_needs_both_witness :
  let o : gmap string value := <["id" := VStr "1"]> (<["lat" := VStr "3"]> ∅) in
  flat_record o ∧ o !! "hasOwnProperty" = None ∧
  ∃ r, remap (VObj o) = Return (VObj r) ∧
    r !! "coordinate" = None ∧
    r !! "lat" = Some (VStr "3") ∧
    r !! "lng" = None.
Proof.
  intros o.
  assert (flat_record o) as Hf.
  { intros name v. unfold o.
    intros [[_ <-]|[_ [[_ <-]|[_ E]]%lookup_insert_Some]]%lookup_insert_Some;
      [done|done|]. by rewrite lookup_empty in E. }
  split_and!; [done|done|].
  apply (remap_coordinate_needs_both o Hf). done.
Defined.

Lemma sentinel_handled_by_callers_witness :
  @hgetallAsync (@getSiteHashKey keys (Js.ToString (num 7))) w3
    = (Return VNull, w3) ∧
  @findById keys (num 7) w3 = (Return VNull, w3) ∧
  @hgetallAsync (@getSiteHashKey keys "7") w3 = (Return VNull, w3) ∧
  @fetch_sites keys ["7"; "1"] w3 = @fetch_sites keys ["1"] w3.
Proof.
  destruct (@sentinel_handled_by_callers keys) as (_ & Hfind & _ & Hfetch).
  assert (@hgetallAsync (@getSiteHashKey keys (Js.ToString (num 7))) w3
          = (Return VNull, w3)) as E by by vm_compute.
  split_and!; [done|by apply Hfind|done|by apply Hfetch].
Defined.

Lemma dao_frame_witness :
  @KeyGeneratorLaws keys ∧
  (@findById keys (num 1) w3).2 = w3 ∧
  (@findAll keys geo w3).2 = w3 ∧
  (@findByGeo keys geo Zero Zero ten "KM" w3).2 = w3 ∧
  same_except [@temporaryKey keys 0; @temporaryKey keys 1] (redis w3)
    (redis (@findByGeoWithExcessCapacity keys geo Zero Zero ten "KM" w3).2) ∧
  same_except [@getSiteHashKey keys (site_id (site 4 400 1 1));
               @getSiteGeoKey keys]
    (redis w3) (redis (@insert keys geo (site 4 400 1 1) w3).2).
Proof.
  destruct (@dao_frame keys geo keys_laws) as (H1 & H2 & H3 & H4 & H5).
  split_and!;
    [apply keys_laws|apply H1|apply H2|apply H3
    |apply (H4 Zero Zero ten "KM" w3)|apply (H5 (site 4 400 1 1) w3)].
Defined.

Lemma unit_case_insensitive_witness :
  Js.toLowerCase "KM" = Js.toLowerCase "km" ∧
  @findByGeo keys geo Zero Zero ten "KM" w3
  = @findByGeo keys geo Zero Zero ten "km" w3 ∧
  @findByGeoWithExcessCapacity keys geo Zero Zero ten "KM" w3
  = @findByGeoWithExcessCapacity keys geo Zero Zero ten "km" w3.
Proof.
  split; [done|].
  by apply (@unit_case_insensitive keys geo Zero Zero ten "KM" "km" w3).
Defined.

End Witnesses.

(** ** Where the code departs from the claims *)

Module Departures.
Import Example MoreExamples.

(** C1, as stated, fails.  Site 1 is within the radius and has a score of
    0.2, yet the call does not return it when its hash has a field called
    hasOwnProperty: decode throws, and the call is rejected with the
    TypeError.  When the key of its hash holds a sorted set, the call is
    rejected with the server's WRONGTYPE error.  And when the name of the
    first temporary key is in use and the server refuses the unit, the call
    returns site 3, which the set under that name holds, although no site
    is within a radius. *)
Lemma excess_capacity_record_not_decoded :
  @has_excess_capacity_nearby keys geo three_sites_one_shadowed Zero Zero ten
    "km" "1" ∧
  (@findByGeoWithExcessCapacity keys geo Zero Zero ten "KM"
     (World three_sites_one_shadowed 0)).1
  = Throw (TypeError "hasOwnProperty is not a function") ∧
  @has_excess_capacity_nearby keys geo three_sites_one_mistyped Zero Zero ten
    "km" "1" ∧
  (@findByGeoWithExcessCapacity keys geo Zero Zero ten "KM"
     (World three_sites_one_mistyped 0)).1
  = Throw (ReplyError "WRONGTYPE" "HGETALL") ∧
  (∀ id, ¬ @has_excess_capacity_nearby keys geo three_sites_stale_temporary
             Zero Zero ten "ly" id) ∧
  (@findByGeoWithExcessCapacity keys geo Zero Zero ten "LY"
     (World three_sites_stale_temporary 0)).1
  = Return [VObj (site 3 300 2 3)].
Proof.
  split_and!; [|by vm_compute| |by vm_compute| |by vm_compute].
  - exists near, 2%Q, (2 # 10)%Q. split_and!; by vm_compute.
  - exists near, 2%Q, (2 # 10)%Q. split_and!; by vm_compute.
  - intros id (within & g & s & Hw & _). by vm_compute in Hw.
Qed.

(** C5, as stated, fails.  When a site of the geo index has a hash with a
    field called hasOwnProperty, [findAll] is rejected with a TypeError;
    when the key of the geo index holds a hash, it is rejected with the
    server's WRONGTYPE error; and when the key of site 1 holds a sorted set,
    it returns three objects although the store has two site hashes. *)
Lemma findAll_record_not_decoded :
  (@findAll keys geo (World three_sites_one_shadowed 0)).1
  = Throw (TypeError "hasOwnProperty is not a function") ∧
  (@findAll keys geo (World three_sites_geo_mistyped 0)).1
  = Throw (ReplyError "WRONGTYPE" "ZRANGE") ∧
  ∃ found,
    (@findAll keys geo (World three_sites_one_mistyped 0)).1 = Return found ∧
    length found = 3%nat ∧
    @stored_site keys three_sites_one_mistyped "1" = None.
Proof.
  split_and!; [by vm_compute|by vm_compute|].
  eexists. split_and!; [by vm_compute|done|done].
Qed.


(** C2. Given a site without coordinate, [insert] is rejected with the
    error "Coordinate required for site geo insert!", but only after HMSET:
    the store that was empty holds the site's hash afterwards. *)
Theorem insert_without_coordinate_writes_hash :
  ∃ w',
    @insert keys geo site_without_coordinate empty_world
    = (Throw (PlainError "Coordinate required for site geo insert!"), w') ∧
    db (redis empty_world) !! "sites:info:1" = None ∧
    db (redis w') !! "sites:info:1"
    = Some (RHash (<["id" := "1"]> (<["panels" := "100"]>
                   (<["capacity" := "4.5"]> ∅)))) ∧
    db (redis w') !! @getSiteGeoKey keys = None.
Proof. eexists. split; [by vm_compute|]. by vm_compute. Qed.

(** C8, as stated, fails: inserting a site whose id is already stored
    updates the site's hash and its entry in the geo index. *)
Lemma insert_updates_stored_site :
  let w := World three_sites 0 in
  let w' := (@insert keys geo (site 1 999 5 3) w).2 in
  (@insert keys geo (site 1 999 5 3) w).1 = Return "sites:info:1" ∧
  db (redis w) !! "sites:info:1" = Some (hash_of "1" "100") ∧
  db (redis w') !! "sites:info:1"
  = Some (RHash (<["id" := "1"]> (<["panels" := "999"]>
                 (<["capacity" := "4.5"]> (<["lat" := "3"]>
                 (<["lng" := "5"]> ∅)))))) ∧
  db (redis w') !! "sites:info:1" ≠ db (redis w) !! "sites:info:1" ∧
  @geo_index keys (redis w) !! "1" = Some 2%Q ∧
  @geo_index keys (redis w') !! "1" = Some 5%Q.
Proof.
  intros w w'. split_and!; by vm_compute.
Qed.

End Departures.

(** * Further properties of the code *)

(** ** The codec *)

Section CodecMore.

(** X1. Decoding a flat record fails exactly when the record has a field
    called hasOwnProperty, and then with a TypeError.  When it does not
    fail, a numeric field that the record lacks comes out as NaN, and every
    field other than id, panels, capacity, lat, lng and coordinate comes out
    as it went in. *)
Theorem remap_missing_and_other_fields (o : gmap string value) :
  flat_record o →
  (is_Some (o !! "hasOwnProperty") →
   remap (VObj o) = Throw (TypeError "hasOwnProperty is not a function")) ∧
  (o !! "hasOwnProperty" = None →
   ∃ r, remap (VObj o) = Return (VObj r) ∧
    (∀ name, name ∈ ["id"; "panels"; "capacity"] → o !! name = None →
             r !! name = Some (VNum NaN)) ∧
    (∀ name, name ∉ ["id"; "panels"; "capacity"; "lat"; "lng"; "coordinate"] →
             r !! name = o !! name)).
Proof.
  intros _. split; [intros [x Hx]; by rewrite (remap_shadowed _ _ Hx)|].
  intros Ho. rewrite remap_plain by done. eexists. split; [done|]. split.
  - intros name Hin Hno.
    assert (member o name = VUndefined) as Hm by (unfold member; by rewrite Hno).
    assert (Js.parseInt VUndefined = VNum NaN) as Hi by done.
    assert (Js.parseFloat VUndefined = VNum NaN) as Hf by done.
    destruct (_ && _);
      apply elem_of_cons in Hin as [->|Hin];
      [|apply elem_of_cons in Hin as [->|Hin];
        [|apply list_elem_of_singleton in Hin as ->]| |
       apply elem_of_cons in Hin as [->|Hin];
        [|apply list_elem_of_singleton in Hin as ->]];
      rewrite ?lookup_delete_ne by done;
      rewrite ?(lookup_insert_ne _ "coordinate") by done;
      rewrite ?(lookup_insert_ne _ "capacity" "id"),
              ?(lookup_insert_ne _ "capacity" "panels"),
              ?(lookup_insert_ne _ "panels" "id") by done;
      rewrite lookup_insert_eq, Hm; by rewrite ?Hi, ?Hf.
  - intros name Hout.
    repeat (apply not_elem_of_cons in Hout as [? Hout]).
    destruct (_ && _);
      by rewrite ?lookup_delete_ne, ?lookup_insert_ne by done.
Qed.

(** X2. Encoding fails exactly when the site has a property called
    hasOwnProperty, or a coordinate property that is null or undefined;
    what it returns has no coordinate property, and every property other
    than coordinate, lat and lng as in the site. *)
Theorem flatten_spec (site : gmap string value) :
  ((∃ e, flatten site = Throw e) ↔
   is_Some (site !! "hasOwnProperty") ∨
   site !! "coordinate" = Some VNull ∨ site !! "coordinate" = Some VUndefined) ∧
  (∀ flat, flatten site = Return flat →
     flat !! "coordinate" = None ∧
     ∀ name, name ∉ ["coordinate"; "lat"; "lng"] → flat !! name = site !! name).
Proof.
  rewrite flatten_object.
  destruct (site !! "hasOwnProperty") as [x|] eqn:Es.
  { split; [|done]. split; [intros _; left; by eexists|by eexists]. }
  destruct (site !! "coordinate") as [c|] eqn:Ec.
  - split.
    + destruct c; cbn; split; try (intros [e [=]]);
        try (by intros [[? [=]]|[[=]|[=]]]); eauto.
    + intros flat Hf.
      assert (∃ lat lng, flat = delete "coordinate"
                (<["lng" := lng]> (<["lat" := lat]> site))) as (lat & lng & ->).
      { destruct c; cbn in Hf; try done; injection Hf as <-; eauto. }
      split; [by rewrite lookup_delete_eq|].
      intros name Hout. repeat (apply not_elem_of_cons in Hout as [? Hout]).
      by rewrite lookup_delete_ne, !lookup_insert_ne.
  - split.
    + split; [by intros [e [=]]|by intros [[? [=]]|[[=]|[=]]]].
    + intros flat [= <-]. split; [done|]. done.
Qed.

End CodecMore.

(** ** The logger *)

Module LoggerFacts.
Import Logger.

Lemma length_snoc (m : string) (c : ascii) :
  String.length (m +:+ String c EmptyString) = S (String.length m).
Proof.
  induction m as [|a m IH]; [done|].
  change (String a m +:+ ?x) with (String a (m +:+ x)).
  cbn [String.length]. by rewrite IH.
Qed.

Lemma substring_prefix (m : string) (c : ascii) :
  String.substring 0 (String.length m) (m +:+ String c EmptyString) = m.
Proof.
  induction m as [|a m IH]; [done|].
  change (String a m +:+ ?x) with (String a (m +:+ x)).
  cbn [String.length String.substring]. by rewrite IH.
Qed.

Lemma substring_all_but_last (m : string) (c : ascii) :
  String.substring 0 (String.length (m +:+ String c EmptyString) - 1)
    (m +:+ String c EmptyString) = m.
Proof.
  rewrite length_snoc, Nat.sub_succ, Nat.sub_0_r. apply substring_prefix.
Qed.

(** X3. The stream's write hands the logger, at level info, the message
    without its last character, whatever that character is; an empty
    message is handed over as it is.  So a line that ends with a newline
    is logged without it, and a line that does not loses a character. *)
Theorem stream_write_drops_last (log : list line) :
  (∀ m c, stream_write (m +:+ String c EmptyString) log
          = log ++ [Line "info" m]) ∧
  stream_write EmptyString log = log ++ [Line "info" EmptyString].
Proof.
  split; [|done]. intros m c. unfold stream_write, info.
  rewrite substring_all_but_last, length_snoc. done.
Qed.

End LoggerFacts.

(** ** Insert *)

Section InsertMore.
Context `{KeyGenerator} `{GeoIndex}.
Import Redis StoreFacts.

Lemma update_key_again key e st :
  update_key key e (update_key key e st) = update_key key e st.
Proof. unfold update_key. cbn. by rewrite insert_insert_eq. Qed.

Lemma update_key_same key e st :
  db st !! key = Some e → update_key key e st = st.
Proof.
  intros E. destruct st as [d x]. unfold update_key. cbn in *.
  by rewrite insert_id.
Qed.

(** Running HMSET again with the same fields changes nothing more. *)
Lemma hmset_again key fields st r st1 :
  hmset key fields st = (Return r, st1) →
  hmset key fields st1 = (Return r, st1).
Proof.
  unfold hmset. destruct (is_empty fields); [done|].
  destruct (read_hash _ key st) as [h|e] eqn:Eh; [|done].
  intros [= <- <-]. unfold read_hash at 1. cbn [db update_key].
  rewrite lookup_insert_eq.
  by rewrite (assoc_L (∪)), (idemp_L (∪)), update_key_again.
Qed.

Lemma hmset_throw key fields st e st1 :
  hmset key fields st = (Throw e, st1) → st1 = st.
Proof.
  unfold hmset. destruct (is_empty fields); [by intros [= <- <-]|].
  destruct (read_hash _ key st); [done|]. by intros [= <- <-].
Qed.

(** X4. A site that was inserted with nothing under its hash key before is
    what [findById] returns for its id afterwards: the site as decoded
    from its stored form. *)
Theorem insert_then_findById site w key w' :
  insert site w = (Return key, w') →
  db (redis w) !! key = None →
  ∃ v, decode_stored site = Return v ∧
       findById (member site "id") w' = (Return v, w').
Proof.
  intros (-> & flat & old & c & lng & lat & g & z & Hf & Hne & Ho & Hc & Hlng
          & Hlat & Hg & Hz & ->)%insert_returns Hk.
  cbv zeta in Hz. set (key := getSiteHashKey (site_id site)) in *.
  assert (old = ∅) as ->.
  { unfold read_hash in Ho. rewrite Hk in Ho. by injection Ho. }
  rewrite (right_id_L ∅ (∪)) in *.
  assert (getSiteGeoKey ≠ key) as Hkg.
  { intros E. unfold read_zset in Hz. rewrite E in Hz. cbn in Hz.
    by rewrite lookup_insert_eq in Hz. }
  destruct (remap_object_returns (stored_fields flat)) as [r Hr].
  { apply stored_fields_plain, (flatten_returns_plain _ _ Hf). }
  exists (VObj r). split.
  { unfold decode_stored. by rewrite Hf. }
  unfold findById, await, hgetallAsync, read_store. fold (site_id site) key.
  rewrite (hgetall_present _ _ (Js.ToString <$> flat)); [|cbn|done].
  - cbn [result_bind]. unfold sync. rewrite stored_fields_hash_object.
    by rewrite Hr.
  - by rewrite lookup_insert_ne, lookup_insert_eq.
Qed.

(** X5. Inserting the same site again changes nothing: the second call
    has the outcome of the first and leaves the world as the first left
    it. *)
Theorem insert_idempotent site w :
  insert site (insert site w).2 = insert site w.
Proof.
  destruct (insert site w) as [r w1] eqn:E1. cbn [snd].
  revert E1.
  unfold insert, site_id, await, sync, reject, resolve, hmsetAsync,
    geoaddAsync, on_store.
  set (key := getSiteHashKey _).
  destruct (flatten site) as [flat|e]; [|by intros [= <- <-]].
  destruct (hmset key (Js.ToString <$> flat) (redis w)) as [[ok|e] st1] eqn:Eh.
  2:{ intros [= <- <-]. cbn [redis generated].
      pose proof (hmset_throw _ _ _ _ _ Eh) as ->. by rewrite Eh. }
  pose proof (hmset_again _ _ _ _ _ Eh) as Eh1.
  cbn [redis generated].
  destruct (Js.has_own_property _ _) as [hasCoordinate|e];
    [|intros [= <- <-]; cbn [redis generated]; by rewrite Eh1].
  destruct (negb _) eqn:Ec.
  { intros [= <- <-]. cbn [redis generated]. by rewrite Eh1. }
  destruct (Js.get _ "lng") as [lng|e];
    [|intros [= <- <-]; cbn [redis generated]; by rewrite Eh1].
  destruct (Js.get _ "lat") as [lat|e];
    [|intros [= <- <-]; cbn [redis generated]; by rewrite Eh1].
  unfold geoadd. cbn [redis generated].
  destruct (geoEncode _ _) as [g|];
    [|intros [= <- <-]; cbn [redis generated]; by rewrite Eh1].
  destruct (read_zset "GEOADD" getSiteGeoKey st1) as [z|e] eqn:Ez;
    [|intros [= <- <-]; cbn [redis generated]; rewrite Eh1;
      cbn [redis generated]; by rewrite Ez].
  intros [= <- <-]. cbn [redis generated].
  (* the first call went through: the hash and the geo entry are there *)
  assert (∃ F, db st1 !! key = Some (RHash F) ∧
               hmset key (Js.ToString <$> flat) st1 = (Return ok, st1))
    as (F & HF & _).
  { unfold hmset in Eh. destruct (is_empty _); [done|].
    destruct (read_hash _ _ _) as [h|]; [|done]. injection Eh as <- <-.
    eexists. split; [cbn; by rewrite lookup_insert_eq|done]. }
  assert (getSiteGeoKey ≠ key) as Hkg.
  { intros E. unfold read_zset in Ez. by rewrite E, HF in Ez. }
  set (st2 := update_key getSiteGeoKey _ st1).
  assert (db st2 !! key = Some (RHash F)) as HF2.
  { unfold st2. cbn [db update_key]. by rewrite lookup_insert_ne. }
  assert (hmset key (Js.ToString <$> flat) st2 = (Return ok, st2)) as ->.
  { clear Eh. unfold hmset, read_hash in Eh1 |- *.
    destruct (is_empty _); [done|]. rewrite HF in Eh1. rewrite HF2.
    injection Eh1 as <- Eu. f_equal.
    assert ((Js.ToString <$> flat) ∪ F = F) as ->.
    { apply (f_equal (λ s, db s !! key)) in Eu. cbn in Eu.
      rewrite lookup_insert_eq, HF in Eu. by injection Eu. }
    by apply update_key_same. }
  cbn [redis generated].
  assert (read_zset "GEOADD" getSiteGeoKey st2
          = Return (<[Js.ToString (member site "id") := g]> z)) as ->.
  { unfold read_zset, st2. cbn [db update_key]. by rewrite lookup_insert_eq. }
  unfold st2. by rewrite insert_insert_eq, update_key_again.
Qed.

End InsertMore.

Section InsertOutcomes.
Context `{KeyGenerator} `{GeoIndex}.
Import Redis StoreFacts.

(** X6. A site whose coordinate property is null or undefined is refused
    with a TypeError before anything is sent to the store: the world is as
    before.  The TypeError is that of reading a property of null or
    undefined, unless the site has a property called hasOwnProperty, which
    makes the encoding throw its TypeError first. *)
Theorem insert_null_coordinate site w c :
  site !! "coordinate" = Some c → c = VNull ∨ c = VUndefined →
  insert site w
  = (Throw (TypeError
              (if bool_decide (is_Some (site !! "hasOwnProperty"))
               then "hasOwnProperty is not a function"
               else "Cannot read properties of null or undefined")), w).
Proof.
  intros Hc Hnull. unfold insert, await, sync. rewrite flatten_object, Hc.
  destruct (site !! "hasOwnProperty"); [done|]. by destruct Hnull as [-> | ->].
Qed.

(** X20. A site that has a property called hasOwnProperty is refused with
    a TypeError before anything is sent to the store: the world is as
    before. *)
Theorem insert_shadowed_site site w x :
  Js.primitive (member site "id") = true →
  site !! "hasOwnProperty" = Some x →
  insert site w = (Throw (TypeError "hasOwnProperty is not a function"), w).
Proof.
  intros _ Hs. unfold insert, await, sync.
  by rewrite (flatten_shadowed _ _ Hs).
Qed.

Lemma flatten_object_coordinate site c :
  site !! "hasOwnProperty" = None →
  site !! "coordinate" = Some (VObj c) →
  ∃ flat, flatten site = Return flat ∧
          flat !! "lng" = Some (default VUndefined (c !! "lng")) ∧
          Js.ToString <$> flat ≠ ∅.
Proof.
  intros Hs Hc. rewrite (flatten_with_coordinate _ _ Hs Hc).
  eexists. split; [done|].
  assert (delete "coordinate"
            (<["lng" := default VUndefined (c !! "lng")]>
               (<["lat" := default VUndefined (c !! "lat")]> site)) !! "lng"
          = Some (default VUndefined (c !! "lng"))) as Hl.
  { by rewrite lookup_delete_ne, lookup_insert_eq. }
  split; [done|]. intros E. apply (f_equal (λ m, m !! "lng")) in E.
  by rewrite lookup_fmap, Hl, lookup_empty in E.
Qed.

(** X7. When the server refuses the position of a site (a site with a
    coordinate object, no nested object elsewhere and no property called
    hasOwnProperty), insert is rejected with the server's error after the
    hash has been written: the site's hash is in the store, every other
    key, the geo index among them, is as before. *)
Theorem insert_rejected_position site w c :
  let key := getSiteHashKey (site_id site) in
  plain_site site c →
  geoEncode (Js.ToString (default VUndefined (c !! "lng")))
            (Js.ToString (default VUndefined (c !! "lat"))) = None →
  (∀ z, db (redis w) !! key ≠ Some (RZSet z)) →
  ∃ flat stored w',
    flatten site = Return flat ∧
    insert site w = (Throw (ReplyError "ERR" "GEOADD"), w') ∧
    db (redis w') !! key = Some (RHash stored) ∧
    (∀ field v, flat !! field = Some v →
                stored !! field = Some (Js.ToString v)) ∧
    (∀ k, k ≠ key → db (redis w') !! k = db (redis w) !! k).
Proof.
  intros key (Hs & Hc & _) Hg Hk.
  destruct (flatten_object_coordinate site c Hs Hc) as (flat & Hf & _ & Hne).
  assert (∃ old, read_hash "HMSET" key (redis w) = Return old) as [old Ho].
  { unfold read_hash. destruct (db (redis w) !! key) as [[h|z]|] eqn:E; eauto.
    by destruct (Hk z). }
  exists flat, ((Js.ToString <$> flat) ∪ old).
  eexists. split; [done|]. split.
  - unfold insert, await, sync, hmsetAsync, on_store, hmset. fold (site_id site) key.
    rewrite Hf, (proj2 (is_empty_false _) Hne), Ho.
    rewrite has_own_property_plain by done.
    rewrite bool_decide_eq_true_2 by eauto. cbn [negb].
    unfold member at 1 2. rewrite Hc. cbn [default from_option id].
    rewrite !get_object. unfold geoaddAsync, on_store, geoadd.
    cbn [redis generated]. by rewrite Hg.
  - cbn [redis db update_key]. split_and!.
    + by rewrite lookup_insert_eq.
    + intros field v Hv. apply lookup_union_Some_l. by rewrite lookup_fmap, Hv.
    + intros k Hne'. by rewrite lookup_insert_ne.
Qed.

(** X8. What a successful insert leaves under the site's key when a hash
    was there before: the fields of the new record, and the fields of the
    old one that the new record does not have. *)
Theorem insert_merges_fields site w key w' old :
  insert site w = (Return key, w') →
  db (redis w) !! key = Some (RHash old) →
  ∃ flat stored,
    flatten site = Return flat ∧
    db (redis w') !! key = Some (RHash stored) ∧
    ∀ field, stored !! field =
             match flat !! field with
             | Some v => Some (Js.ToString v)
             | None => old !! field
             end.
Proof.
  intros (-> & flat & old' & c & lng & lat & g & z & Hf & _ & Ho & Hc & Hlng
          & Hlat & Hg & Hz & ->)%insert_returns Hk.
  cbv zeta in Hz. set (key := getSiteHashKey (site_id site)) in *.
  assert (old' = old) as ->.
  { unfold read_hash in Ho. rewrite Hk in Ho. by injection Ho. }
  assert (getSiteGeoKey ≠ key) as Hkg.
  { intros E. unfold read_zset in Hz. rewrite E in Hz. cbn in Hz.
    by rewrite lookup_insert_eq in Hz. }
  exists flat, ((Js.ToString <$> flat) ∪ old). split_and!; [done| |].
  - cbn. by rewrite lookup_insert_ne, lookup_insert_eq.
  - intros field. rewrite lookup_union, lookup_fmap.
    destruct (flat !! field); cbn; [by destruct (old !! field)|].
    by destruct (old !! field).
Qed.

Lemma findById_result_same id w1 w2 :
  db (redis w2) !! getSiteHashKey (Js.ToString id)
  = db (redis w1) !! getSiteHashKey (Js.ToString id) →
  (findById id w2).1 = (findById id w1).1.
Proof.
  intros E. unfold findById, await, hgetallAsync, read_store, hgetall, read_hash.
  rewrite E. destruct (db (redis w1) !! _) as [[h|z]|]; [|done|done].
  cbn [result_bind]. destruct (hash_object _); try done.
  all: unfold sync; cbn; by destruct (remap _).
Qed.

Section WithLaws.
Context `{!KeyGeneratorLaws}.

(** X9. A site with a coordinate object, no nested object elsewhere and
    no property called hasOwnProperty, whose position the server accepts, is
    inserted, provided that its key holds no sorted set and the key of the
    geo index no hash; insert returns the key of the site's hash. *)
Theorem insert_succeeds site w c g :
  let key := getSiteHashKey (site_id site) in
  plain_site site c →
  geoEncode (Js.ToString (default VUndefined (c !! "lng")))
            (Js.ToString (default VUndefined (c !! "lat"))) = Some g →
  (∀ z, db (redis w) !! key ≠ Some (RZSet z)) →
  (∀ h, db (redis w) !! getSiteGeoKey ≠ Some (RHash h)) →
  ∃ w', insert site w = (Return key, w').
Proof.
  intros key (Hs & Hc & _) Hg Hk Hgeo.
  destruct (flatten_object_coordinate site c Hs Hc) as (flat & Hf & _ & Hne).
  assert (∃ old, read_hash "HMSET" key (redis w) = Return old) as [old Ho].
  { unfold read_hash. destruct (db (redis w) !! key) as [[h|z]|] eqn:E; eauto.
    by destruct (Hk z). }
  assert (key ≠ getSiteGeoKey) as Hkg by apply site_hash_key_not_geo.
  unfold insert, await, sync, hmsetAsync, on_store, hmset. fold (site_id site) key.
  rewrite Hf, (proj2 (is_empty_false _) Hne), Ho.
  rewrite has_own_property_plain by done.
  rewrite bool_decide_eq_true_2 by eauto. cbn [negb].
  unfold member at 1 2. rewrite Hc. cbn [default from_option id].
  rewrite !get_object. unfold geoaddAsync, on_store, geoadd.
  cbn [redis generated]. rewrite Hg.
  unfold read_zset. cbn [db update_key]. rewrite lookup_insert_ne by done.
  destruct (db (redis w) !! getSiteGeoKey) as [[h|z]|] eqn:E.
  - by destruct (Hgeo h).
  - by eexists.
  - by eexists.
Qed.

(** X10. Inserting a site does not change what [findById] returns for
    any other id. *)
Theorem insert_keeps_other_lookups site w id :
  Js.ToString id ≠ site_id site →
  (findById id (insert site w).2).1 = (findById id w).1.
Proof.
  intros Hid. apply findById_result_same.
  destruct (insert site w) as [r w'] eqn:E. cbn [snd].
  destruct (insert_frame _ _ _ _ E) as [_ Hs]. apply Hs.
  intros [E'|[E'|[]%elem_of_nil]%elem_of_cons]%elem_of_cons.
  - by apply site_hash_key_inj in E'.
  - by apply site_hash_key_not_geo in E'.
Qed.

End WithLaws.
End InsertOutcomes.

(** ** The queries *)

Section QueryFacts.
Context `{KeyGenerator} `{GeoIndex}.
Import Redis StoreFacts.

(** What [findByGeo] does when the server accepts the query. *)
Lemma findByGeo_run lat lng radius unit w within :
  geoWithin (Number.to_string lng) (Number.to_string lat)
            (Number.to_string radius) (Js.toLowerCase unit) = Some within →
  (∀ h, db (redis w) !! getSiteGeoKey ≠ Some (RHash h)) →
  findByGeo lat lng radius unit w =
  fetch_sites
    (ranked (filter (λ e, Is_true (within e.2)) (geo_index (redis w)))).*1 w.
Proof.
  intros Hw Hg. unfold findByGeo, await, georadiusAsync, read_store,
    georadius, in_radius, read_zset, geo_index, zset_at.
  rewrite Hw.
  destruct (db (redis w) !! getSiteGeoKey) as [[h|z]|] eqn:E; try done.
  by destruct (Hg h).
Qed.

Lemma elem_of_within (z : gmap string Q) (within : Q → bool) id :
  id ∈ (ranked (filter (λ e, Is_true (within e.2)) z)).*1 ↔
  ∃ g, z !! id = Some g ∧ within g = true.
Proof.
  rewrite list_elem_of_fmap. split.
  - intros ([id' g] & -> & Hin%elem_of_ranked).
    apply map_lookup_filter_Some in Hin as [Hz Hw]. exists g.
    split; [done|]. by apply Is_true_true.
  - intros (g & Hz & Hw). exists (id, g). split; [done|].
    apply elem_of_ranked, map_lookup_filter_Some. split; [done|].
    by apply Is_true_true.
Qed.

Lemma is_empty_true_empty {A} : is_empty (∅ : gmap string A) = true.
Proof. by apply is_empty_true. Qed.

Lemma fetch_sites_cons id ids w :
  fetch_sites (id :: ids) w =
  match hgetall (getSiteHashKey id) (redis w) with
  | Throw e => (Throw e, w)
  | Return reply =>
      if Js.truthy (hash_object reply) then
        match remap (hash_object reply) with
        | Throw e => (Throw e, w)
        | Return site =>
            match fetch_sites ids w with
            | (Return sites, w') => (Return (site :: sites), w')
            | (Throw e, w') => (Throw e, w')
            end
        end
      else fetch_sites ids w
  end.
Proof.
  cbn [fetch_sites]. unfold await, hgetallAsync, read_store, sync, resolve.
  destruct (hgetall _ _) as [reply|e]; [|done]. cbn [result_bind].
  destruct (Js.truthy _); [|done]. by destruct (remap _).
Qed.

(** The outcome of the lookups depends on the site hashes only. *)
Lemma fetch_sites_result_same ids w1 w2 :
  (∀ id, db (redis w2) !! getSiteHashKey id
         = db (redis w1) !! getSiteHashKey id) →
  (fetch_sites ids w2).1 = (fetch_sites ids w1).1.
Proof.
  intros Hsame. induction ids as [|id ids IH]; [done|].
  rewrite !fetch_sites_cons. unfold hgetall, read_hash. rewrite Hsame.
  destruct (db (redis w1) !! getSiteHashKey id) as [[h|z]|]; [|done|].
  - destruct (Js.truthy _); [|done]. destruct (remap _); [|done].
    destruct (fetch_sites ids w1) as [[s1|e1] ?],
             (fetch_sites ids w2) as [[s2|e2] ?]; cbn in *; congruence.
  - cbn [hash_object Js.truthy]. rewrite is_empty_true_empty. done.
Qed.

Lemma stored_site_findById w id v :
  stored_site (redis w) id = Some v →
  findById (VStr id) w = (Return v, w).
Proof.
  unfold stored_site, findById, await, hgetallAsync, read_store, hgetall,
    read_hash. cbn [Js.ToString].
  destruct (db (redis w) !! getSiteHashKey id) as [[h|z]|]; [|done|done].
  destruct (is_empty h); [done|]. cbn [result_bind hash_object].
  unfold sync. destruct (remap _) as [site|]; [|done]. by intros [= ->].
Qed.

Lemma findById_stored_site w id v :
  findById (VStr id) w = (Return v, w) → v ≠ VNull →
  stored_site (redis w) id = Some v.
Proof.
  unfold stored_site, findById, await, hgetallAsync, read_store, hgetall,
    read_hash. cbn [Js.ToString].
  destruct (db (redis w) !! getSiteHashKey id) as [[h|z]|]; [|done|].
  - destruct (is_empty h); cbn [result_bind hash_object].
    + unfold resolve. by intros [= <-].
    + unfold sync. destruct (remap _) as [site|]; [|done]. by intros [= ->].
  - cbn. unfold resolve. by intros [= <-].
Qed.

(** X19. When the hash of a site has a field called hasOwnProperty,
    [findById] is rejected with a TypeError for the id of that site; the
    world is as before. *)
Theorem findById_shadowed_record id w h x :
  Js.primitive id = true →
  db (redis w) !! getSiteHashKey (Js.ToString id) = Some (RHash h) →
  h !! "hasOwnProperty" = Some x →
  findById id w = (Throw (TypeError "hasOwnProperty is not a function"), w).
Proof.
  intros _ Hk Hx. unfold findById, await, hgetallAsync, read_store.
  rewrite (hgetall_present _ _ h); [|done|].
  - cbn [result_bind hash_object]. unfold sync.
    by rewrite (remap_shadowed _ (VStr x)) by by apply hash_object_shadowed.
  - intros ->. by rewrite lookup_empty in Hx.
Qed.

(** X11. When the server accepts the query, in a store where the key of
    the geo index holds no hash, no site hash key holds a sorted set and no
    site hash has a field called hasOwnProperty, [findByGeo] returns the
    stored sites of exactly the ids that the geo index holds within the
    radius, each id once, leaving out the ids that have no hash. *)
Theorem findByGeo_spec lat lng radius unit w within :
  geoWithin (Number.to_string lng) (Number.to_string lat)
            (Number.to_string radius) (Js.toLowerCase unit) = Some within →
  (∀ h, db (redis w) !! getSiteGeoKey ≠ Some (RHash h)) →
  site_keys_typed (redis w) →
  site_records_plain (redis w) →
  ∃ ids,
    findByGeo lat lng radius unit w
      = (Return (omap (stored_site (redis w)) ids), w) ∧
    NoDup ids ∧
    ∀ id, id ∈ ids ↔
          ∃ g, geo_index (redis w) !! id = Some g ∧ within g = true.
Proof.
  intros Hw Hg Ht Hp. eexists. split_and!.
  - rewrite (findByGeo_run _ _ _ _ _ _ Hw Hg). by apply fetch_sites_typed.
  - apply NoDup_ranked_fst.
  - apply elem_of_within.
Qed.

(** X12. When the server refuses the query (a unit or a radius that it
    does not accept), [findByGeo] is rejected, and the world is as
    before. *)
Theorem findByGeo_rejected lat lng radius unit w :
  geoWithin (Number.to_string lng) (Number.to_string lat)
            (Number.to_string radius) (Js.toLowerCase unit) = None →
  ∃ e, findByGeo lat lng radius unit w = (Throw e, w).
Proof.
  intros Hw. unfold findByGeo, await, georadiusAsync, read_store, georadius,
    in_radius. rewrite Hw. destruct (read_zset _ _ _); by eexists.
Qed.

(** X13. In a store where no site hash key holds a sorted set and no site
    hash has a field called hasOwnProperty, every site that [findByGeo]
    returns is among the sites that [findAll] returns. *)
Theorem findByGeo_within_findAll lat lng radius unit w near w' :
  site_keys_typed (redis w) →
  site_records_plain (redis w) →
  findByGeo lat lng radius unit w = (Return near, w') →
  ∃ all, findAll w = (Return all, w) ∧ ∀ v, v ∈ near → v ∈ all.
Proof.
  intros Ht Hp Hrun.
  assert (∀ h, db (redis w) !! getSiteGeoKey ≠ Some (RHash h)) as Hg.
  { intros h E. revert Hrun.
    unfold findByGeo, await, georadiusAsync, read_store, georadius, in_radius,
      read_zset. by rewrite E. }
  destruct (geoWithin (Number.to_string lng) (Number.to_string lat)
              (Number.to_string radius) (Js.toLowerCase unit))
    as [within|] eqn:Hw.
  2:{ revert Hrun. unfold findByGeo, await, georadiusAsync, read_store,
        georadius, in_radius. rewrite Hw. by destruct (read_zset _ _ _). }
  rewrite (findByGeo_run _ _ _ _ _ _ Hw Hg), fetch_sites_typed in Hrun by done.
  injection Hrun as <- <-.
  eexists. split; [by apply findAll_typed|].
  intros v (id & Hin & Hs)%list_elem_of_omap.
  apply list_elem_of_omap. exists id. split; [|done].
  apply elem_of_within in Hin as (g & Hz & _).
  apply list_elem_of_fmap. exists (id, g). split; [done|].
  by apply elem_of_ranked.
Qed.

(** X14. In a store where the key of the geo index holds no hash, no site
    hash key holds a sorted set and no site hash has a field called
    hasOwnProperty, the sites that [findAll] returns are those that
    [findById] returns for the ids of the geo index, the ids for which it
    returns null left out. *)
Theorem findAll_agrees_with_findById w :
  (∀ h, db (redis w) !! getSiteGeoKey ≠ Some (RHash h)) →
  site_keys_typed (redis w) →
  site_records_plain (redis w) →
  ∃ all, findAll w = (Return all, w) ∧
    ∀ v, v ∈ all ↔
         ∃ id, is_Some (geo_index (redis w) !! id) ∧
               findById (VStr id) w = (Return v, w) ∧ v ≠ VNull.
Proof.
  intros Hg Ht Hp. eexists. split; [by apply findAll_typed|].
  intros v. rewrite list_elem_of_omap. split.
  - intros (id & ([id' g] & -> & Hin%elem_of_ranked)%list_elem_of_fmap & Hs).
    exists id'. split_and!; [by eexists|by apply stored_site_findById|].
    intros ->. unfold stored_site in Hs. cbn [fst] in Hs.
    destruct (db (redis w) !! getSiteHashKey id') as [[h|?]|] eqn:Eh; try done.
    destruct (is_empty h); [done|]. cbn [hash_object] in Hs.
    destruct (remap_object_returns (VStr <$> delete "__proto__" h)) as [r Hr].
    { apply hash_object_plain. by eapply Hp. }
    by rewrite Hr in Hs.
  - intros (id & [g Hgeo] & Hf & Hv). exists id. split.
    + apply list_elem_of_fmap. exists (id, g). split; [done|].
      by apply elem_of_ranked.
    + by apply findById_stored_site.
Qed.

End QueryFacts.

Section ExcessCapacityMore.
Context `{KeyGenerator} `{GeoIndex} `{!KeyGeneratorLaws}.
Import Redis StoreFacts.

(** With fresh temporary keys: the ids that are looked up, and the store
    in which they are. *)
Lemma excess_capacity_run lat lng radius unit w :
  let t1 := temporaryKey (generated w) in
  let t2 := temporaryKey (S (generated w)) in
  db (redis w) !! t1 = None → db (redis w) !! t2 = None →
  findByGeoWithExcessCapacity lat lng radius unit w =
  fetch_sites
    (excess_capacity_ids (redis w) lat lng radius (Js.toLowerCase unit))
    (World (after_set_operations t1 t2 lat lng radius (Js.toLowerCase unit)
              (redis w))
           (S (S (generated w)))).
Proof.
  intros t1 t2 Hf1 Hf2.
  assert (t1 ≠ t2) as Hne.
  { intros E. apply temporary_key_inj in E. lia. }
  pose proof (intersection_stored t1 t2 lat lng radius (Js.toLowerCase unit)
                (redis w) Hne (ranking_key_not_temporary _) Hf1 Hf2) as Hz.
  unfold findByGeoWithExcessCapacity, getTemporaryKey, await, execAsync,
    on_store, zrangebyscoreAsync, read_store.
  cbn [exec_batch exec_command integer_reply fst snd redis generated].
  fold t1 t2. fold (after_set_operations t1 t2 lat lng radius
                      (Js.toLowerCase unit) (redis w)).
  unfold zrangebyscore. by rewrite Hz.
Qed.

Lemma site_keys_after t1 t2 lat lng radius unit st id :
  db (after_set_operations (temporaryKey t1) (temporaryKey t2)
        lat lng radius unit st) !! getSiteHashKey id
  = db st !! getSiteHashKey id.
Proof. eapply site_keys_untouched, after_set_operations_frame. Qed.

Lemma elem_of_excess_capacity_ids st lat lng radius unit id :
  id ∈ excess_capacity_ids st lat lng radius unit →
  ∃ within g,
    geoWithin (Number.to_string lng) (Number.to_string lat)
              (Number.to_string radius) unit = Some within ∧
    geo_index st !! id = Some g ∧ within g = true.
Proof.
  unfold excess_capacity_ids. rewrite elem_of_ranked_filter.
  intros (x & (within & g & s & Hw & Hg & Hin & _)
               %within_radius_ranked_lookup & _).
  by exists within, g.
Qed.

Lemma excess_capacity_ids_same st st' lat lng radius unit :
  db st' !! getSiteGeoKey = db st !! getSiteGeoKey →
  db st' !! getCapacityRankingKey = db st !! getCapacityRankingKey →
  excess_capacity_ids st' lat lng radius unit
  = excess_capacity_ids st lat lng radius unit.
Proof.
  intros Eg Er.
  unfold excess_capacity_ids, within_radius_ranked, within_radius, geo_index,
    capacity_ranking, zset_at.
  by rewrite Eg, Er.
Qed.

Lemma store_zset_nothing key st :
  db st !! key = None → db (store_zset key ∅ st) = db st.
Proof.
  intros E. unfold store_zset. cbn [db]. rewrite is_empty_true_empty.
  by apply delete_id.
Qed.

Lemma expire_absent key seconds st :
  db st !! key = None → (expire key seconds st).2 = st.
Proof. intros E. unfold expire. by rewrite E. Qed.

(** With nothing within the radius, the batch leaves no key behind. *)
Lemma after_set_operations_nothing t1 t2 lat lng radius unit st :
  t1 ≠ t2 → getCapacityRankingKey ≠ t1 →
  db st !! t1 = None → db st !! t2 = None →
  within_radius st lat lng radius unit = ∅ →
  db (after_set_operations t1 t2 lat lng radius unit st) = db st.
Proof.
  intros Hne Hr Hf1 Hf2 Hz. unfold after_set_operations. cbv zeta.
  set (st1 := (georadius_store _ _ _ _ _ _ _).2).
  assert (db st1 = db st) as E1.
  { unfold st1, georadius_store.
    pose proof (in_radius_view lat lng radius unit st) as Hv.
    destruct (in_radius _ _ _ _ _ _) as [z|e]; [|done]. cbn [snd].
    rewrite Hv, Hz. by apply store_zset_nothing. }
  set (st2 := (zinterstore _ _ _ _ _ st1).2).
  assert (db st2 = db st) as E2.
  { unfold st2, zinterstore, read_zset. rewrite !E1, Hf1.
    destruct (db st !! getCapacityRankingKey) as [[h|r]|]; [done| |];
      cbn [snd]; rewrite intersection_with_empty_l, store_zset_nothing;
      by rewrite ?E1. }
  rewrite !expire_absent; [done|by rewrite E2|].
  rewrite expire_absent; by rewrite E2.
Qed.

(** X15. With fresh temporary keys, when the geo index holds nothing
    within the radius, or the server refuses the query,
    [findByGeoWithExcessCapacity] returns the empty list, without an error,
    and leaves no key behind in the store. *)
Theorem excess_capacity_nothing_nearby lat lng radius unit w :
  let t1 := temporaryKey (generated w) in
  let t2 := temporaryKey (S (generated w)) in
  db (redis w) !! t1 = None → db (redis w) !! t2 = None →
  within_radius (redis w) lat lng radius (Js.toLowerCase unit) = ∅ →
  ∃ w', findByGeoWithExcessCapacity lat lng radius unit w = (Return [], w') ∧
        db (redis w') = db (redis w) ∧
        generated w' = S (S (generated w)).
Proof.
  intros t1 t2 Hf1 Hf2 Hz.
  rewrite excess_capacity_run by done. fold t1 t2.
  assert (excess_capacity_ids (redis w) lat lng radius (Js.toLowerCase unit)
          = []) as ->.
  { unfold excess_capacity_ids, within_radius_ranked.
    rewrite Hz, intersection_with_empty_l. unfold ranked.
    by rewrite map_to_list_empty. }
  eexists. split; [done|]. cbn [redis generated]. split; [|done].
  apply after_set_operations_nothing; try done.
  - intros E. apply temporary_key_inj in E. lia.
  - apply ranking_key_not_temporary.
Qed.

(** X16. With fresh temporary keys, in a store where no site hash key
    holds a sorted set and no site hash has a field called hasOwnProperty,
    every site that [findByGeoWithExcessCapacity] returns is a site that
    [findByGeo] returns for the same arguments. *)
Theorem excess_capacity_within_findByGeo lat lng radius unit w :
  let t1 := temporaryKey (generated w) in
  let t2 := temporaryKey (S (generated w)) in
  db (redis w) !! t1 = None → db (redis w) !! t2 = None →
  site_keys_typed (redis w) →
  site_records_plain (redis w) →
  ∃ excess w',
    findByGeoWithExcessCapacity lat lng radius unit w = (Return excess, w') ∧
    ∀ v, v ∈ excess →
         ∃ near, findByGeo lat lng radius unit w = (Return near, w) ∧ v ∈ near.
Proof.
  intros t1 t2 Hf1 Hf2 Ht Hp.
  rewrite excess_capacity_run by done. subst t1 t2.
  rewrite fetch_sites_typed.
  2:{ intros id z. cbn [redis]. rewrite site_keys_after. apply Ht. }
  2:{ intros id h. cbn [redis]. rewrite site_keys_after. apply Hp. }
  do 2 eexists. split; [done|].
  intros v (id & Hin & Hs)%list_elem_of_omap.
  cbn [redis] in Hs. rewrite (stored_site_same (redis w)) in Hs
    by apply site_keys_after.
  apply elem_of_excess_capacity_ids in Hin as (within & g & Hw & Hg & Hin).
  assert (∀ h, db (redis w) !! getSiteGeoKey ≠ Some (RHash h)) as Hgeo.
  { intros h E. unfold geo_index, zset_at in Hg. by rewrite E in Hg. }
  rewrite (findByGeo_run _ _ _ _ _ _ Hw Hgeo), fetch_sites_typed by done.
  eexists. split; [done|]. apply list_elem_of_omap. exists id.
  split; [|done]. apply elem_of_within. eauto.
Qed.

(** X17. As long as the temporary keys still to come are not in the
    store, an earlier call of [findByGeoWithExcessCapacity], with whatever
    arguments, does not change what a later call returns: the temporary
    keys of the one do not get in the way of the other. *)
Theorem excess_capacity_calls_independent
    lat lng radius unit lat' lng' radius' unit' w :
  temporaries_fresh w →
  (findByGeoWithExcessCapacity lat lng radius unit
     (findByGeoWithExcessCapacity lat' lng' radius' unit' w).2).1
  = (findByGeoWithExcessCapacity lat lng radius unit w).1.
Proof.
  intros Hfresh. rewrite excess_capacity_world.
  set (n := generated w) in *.
  set (st' := after_set_operations (temporaryKey n) (temporaryKey (S n))
                lat' lng' radius' (Js.toLowerCase unit') (redis w)).
  pose proof (after_set_operations_frame (temporaryKey n) (temporaryKey (S n))
                lat' lng' radius' (Js.toLowerCase unit') (redis w)) as Hs.
  fold st' in Hs.
  assert (∀ m, (S (S n) ≤ m)%nat → db st' !! temporaryKey m = None) as Hf'.
  { intros m Hm. destruct (Hs (temporaryKey m)) as [-> _].
    - intros [E|[E|[]%elem_of_nil]%elem_of_cons]%elem_of_cons;
        apply temporary_key_inj in E; lia.
    - apply Hfresh. unfold n in *. lia. }
  rewrite !excess_capacity_run; cbn [redis generated]; fold n;
    [|apply Hfresh; unfold n; lia|apply Hfresh; unfold n; lia
     |apply Hf'; lia|apply Hf'; lia].
  rewrite (excess_capacity_ids_same (redis w) st').
  - apply fetch_sites_result_same. intros id. cbn [redis].
    rewrite !site_keys_after. eapply site_keys_untouched, Hs.
  - apply Hs.
    intros [E|[E|[]%elem_of_nil]%elem_of_cons]%elem_of_cons;
      by apply geo_key_not_temporary in E.
  - apply Hs.
    intros [E|[E|[]%elem_of_nil]%elem_of_cons]%elem_of_cons;
      by apply ranking_key_not_temporary in E.
Qed.

End ExcessCapacityMore.

Section InsertThenQuery.
Context `{KeyGenerator} `{GeoIndex} `{!KeyGeneratorLaws}.
Import Redis StoreFacts.

(** X18. In a store where no site hash key holds a sorted set and no site
    hash has a field called hasOwnProperty, a site that has just been
    inserted, with nothing under its hash key before, is among the sites
    that [findByGeo] returns for every accepted query whose radius covers
    the position under which the site is indexed. *)
Theorem insert_then_findByGeo site w key w' lat lng radius unit within :
  insert site w = (Return key, w') →
  db (redis w) !! key = None →
  site_keys_typed (redis w) →
  site_records_plain (redis w) →
  geoWithin (Number.to_string lng) (Number.to_string lat)
            (Number.to_string radius) (Js.toLowerCase unit) = Some within →
  (∀ g, geo_index (redis w') !! site_id site = Some g → within g = true) →
  ∃ near v,
    decode_stored site = Return v ∧
    findByGeo lat lng radius unit w' = (Return near, w') ∧
    v ∈ near.
Proof.
  intros (-> & flat & old & c & lng' & lat' & g & z & Hf & Hne & Ho & Hc
          & Hlng & Hlat & Hg & Hz & ->)%insert_returns Hk Ht Hp Hw Hnear.
  cbv zeta in Hz. set (key := getSiteHashKey (site_id site)) in *.
  assert (old = ∅) as ->.
  { unfold read_hash in Ho. rewrite Hk in Ho. by injection Ho. }
  rewrite (right_id_L ∅ (∪)) in *.
  assert (key ≠ getSiteGeoKey) as Hkg by apply site_hash_key_not_geo.
  set (st' := update_key getSiteGeoKey _ _) in *. cbn [redis] in *.
  assert (db st' !! getSiteGeoKey = Some (RZSet (<[site_id site := g]> z)))
    as Hgeo by (unfold st'; cbn; by rewrite lookup_insert_eq).
  assert (db st' !! key = Some (RHash (Js.ToString <$> flat))) as Hkey.
  { unfold st'. cbn. by rewrite lookup_insert_ne, lookup_insert_eq. }
  assert (site_keys_typed st') as Ht'.
  { intros id z'. unfold st'. cbn.
    rewrite lookup_insert_ne by (symmetry; apply site_hash_key_not_geo).
    rewrite lookup_insert. case_decide; [done|]. apply Ht. }
  assert (∀ h, db st' !! getSiteGeoKey ≠ Some (RHash h)) as Hg'
    by (intros h; by rewrite Hgeo).
  assert (flat !! "hasOwnProperty" = None) as Hflat
    by apply (flatten_returns_plain _ _ Hf).
  assert (site_records_plain st') as Hp'.
  { intros id h. unfold st'. cbn.
    rewrite lookup_insert_ne by (symmetry; apply site_hash_key_not_geo).
    rewrite lookup_insert. case_decide; [|apply Hp].
    intros [= <-]. by rewrite lookup_fmap, Hflat. }
  destruct (remap_object_returns (stored_fields flat)) as [r Hr];
    [by apply stored_fields_plain|].
  exists (omap (stored_site st')
            (ranked (filter (λ e, Is_true (within e.2)) (geo_index st'))).*1),
         (VObj r).
  split_and!.
  - unfold decode_stored. by rewrite Hf.
  - rewrite (findByGeo_run lat lng radius unit (World st' (generated w))
               within Hw Hg').
    by apply fetch_sites_typed.
  - apply list_elem_of_omap. exists (site_id site). split.
    + apply elem_of_within. exists g.
      assert (geo_index st' !! site_id site = Some g) as E.
      { unfold geo_index, zset_at. by rewrite Hgeo, lookup_insert_eq. }
      split; [done|]. by apply Hnear.
    + unfold stored_site. fold key. rewrite Hkey.
      rewrite (proj2 (is_empty_false _) Hne).
      by rewrite stored_fields_hash_object, Hr.
Qed.

End InsertThenQuery.

(** ** The further properties at concrete inputs *)

Module MoreWitnesses.
Import Example MoreExamples ExampleFacts.

Lemma w3_temporaries_fresh : @temporaries_fresh keys w3.
Proof.
  intros n _. cbv [temporaryKey keys String.append w3 redis three_sites db].
  by rewrite !lookup_insert_ne, lookup_empty.
Qed.

Lemma remap_missing_and_other_fields_witness :
  let o : gmap string value :=
    <["id" := VStr "7"]> (<["name" := VStr "Roof"]> ∅) in
  flat_record o ∧ o !! "hasOwnProperty" = None ∧
  ∃ r, remap (VObj o) = Return (VObj r) ∧
       r !! "panels" = Some (VNum NaN) ∧
       r !! "name" = Some (VStr "Roof").
Proof.
  intros o.
  assert (flat_record o) as Hf.
  { intros name v. unfold o.
    intros [[_ <-]|[_ [[_ <-]|[_ E]]%lookup_insert_Some]]%lookup_insert_Some;
      [done|done|]. by rewrite lookup_empty in E. }
  split_and!; [done|done|].
  destruct (proj2 (remap_missing_and_other_fields o Hf))
    as (r & Hr & Hnan & Hother); [done|].
  exists r. split_and!; [done| |].
  - apply Hnan; [|done]. right. by left.
  - rewrite Hother; [done|].
    intros Hin. repeat (apply elem_of_cons in Hin as [[=]|Hin]).
    by apply elem_of_nil in Hin.
Defined.

Lemma flatten_spec_witness :
  (∃ e, flatten site_with_null_coordinate = Throw e) ∧
  ∃ flat, flatten (site 1 100 2 3) = Return flat ∧
          flat !! "coordinate" = None ∧
          flat !! "panels" = site 1 100 2 3 !! "panels".
Proof.
  split.
  - apply (proj1 (flatten_spec site_with_null_coordinate)). right. by left.
  - destruct (flatten (site 1 100 2 3)) as [flat|e] eqn:E; [|by vm_compute in E].
    exists flat. split; [done|].
    destruct (proj2 (flatten_spec (site 1 100 2 3)) flat E) as [Hc Ho].
    split; [done|]. apply Ho.
    intros Hin. repeat (apply elem_of_cons in Hin as [[=]|Hin]).
    by apply elem_of_nil in Hin.
Defined.

Lemma insert_then_findById_witness :
  let s := site 1 100 2 3 in
  let w' := (@insert keys geo s empty_world).2 in
  @insert keys geo s empty_world = (Return "sites:info:1", w') ∧
  db (redis empty_world) !! "sites:info:1" = None ∧
  ∃ v, decode_stored s = Return v ∧
       @findById keys (member s "id") w' = (Return v, w').
Proof.
  intros s w'.
  assert (@insert keys geo s empty_world = (Return "sites:info:1", w')) as E
    by by vm_compute.
  split_and!; [done|done|].
  by apply (@insert_then_findById keys geo s empty_world "sites:info:1" w').
Defined.

Lemma insert_null_coordinate_witness :
  site_with_null_coordinate !! "coordinate" = Some VNull ∧
  @insert keys geo site_with_null_coordinate w3
  = (Throw (TypeError "Cannot read properties of null or undefined"), w3).
Proof.
  split; [done|].
  rewrite (@insert_null_coordinate keys geo site_with_null_coordinate w3 VNull);
    [done|done|by left].
Defined.

Lemma insert_shadowed_site_witness :
  Js.primitive (member site_with_shadow "id") = true ∧
  site_with_shadow !! "hasOwnProperty" = Some (VStr "x") ∧
  @insert keys geo site_with_shadow w3
  = (Throw (TypeError "hasOwnProperty is not a function"), w3).
Proof.
  split_and!; [done|done|].
  by apply (@insert_shadowed_site keys geo site_with_shadow w3 (VStr "x")).
Defined.

Lemma findById_shadowed_record_witness :
  let w := World three_sites_one_shadowed 0 in
  let h : gmap string string :=
    <["hasOwnProperty" := "x"]> (<["id" := "1"]>
    (<["panels" := "100"]> (<["capacity" := "4.5"]>
    (<["lat" := "3"]> (<["lng" := "2"]> ∅))))) in
  Js.primitive (num 1) = true ∧
  db (redis w) !! @getSiteHashKey keys (Js.ToString (num 1)) = Some (RHash h) ∧
  h !! "hasOwnProperty" = Some "x" ∧
  @findById keys (num 1) w
  = (Throw (TypeError "hasOwnProperty is not a function"), w).
Proof.
  intros w h.
  assert (db (redis w) !! @getSiteHashKey keys (Js.ToString (num 1))
          = Some (RHash h)) as Hk by by vm_compute.
  split_and!; [done|done|done|].
  by apply (@findById_shadowed_record keys (num 1) w h "x").
Defined.

Lemma insert_rejected_position_witness :
  let c : gmap string value := <["lat" := num 3]> (<["lng" := num 12]> ∅) in
  plain_site site_off_the_line c ∧
  @geoEncode geo (Js.ToString (default VUndefined (c !! "lng")))
                 (Js.ToString (default VUndefined (c !! "lat"))) = None ∧
  ∃ flat stored w',
    flatten site_off_the_line = Return flat ∧
    @insert keys geo site_off_the_line empty_world
    = (Throw (ReplyError "ERR" "GEOADD"), w') ∧
    db (redis w') !! @getSiteHashKey keys (site_id site_off_the_line)
    = Some (RHash stored) ∧
    (∀ field v, flat !! field = Some v →
                stored !! field = Some (Js.ToString v)) ∧
    (∀ k, k ≠ @getSiteHashKey keys (site_id site_off_the_line) →
          db (redis w') !! k = db (redis empty_world) !! k).
Proof.
  intros c.
  assert (plain_site site_off_the_line c) as Hc by apply site_plain.
  assert (@geoEncode geo (Js.ToString (default VUndefined (c !! "lng")))
            (Js.ToString (default VUndefined (c !! "lat"))) = None) as Hg
    by by vm_compute.
  split_and!; [done|done|].
  by apply (@insert_rejected_position keys geo site_off_the_line empty_world c).
Defined.

Lemma insert_merges_fields_witness :
  let w' := (@insert keys geo site_without_panels w3).2 in
  let old : gmap string string :=
    <["id" := "1"]> (<["panels" := "100"]> (<["capacity" := "4.5"]>
    (<["lat" := "3"]> (<["lng" := "2"]> ∅)))) in
  @insert keys geo site_without_panels w3 = (Return "sites:info:1", w') ∧
  db (redis w3) !! "sites:info:1" = Some (RHash old) ∧
  ∃ flat stored,
    flatten site_without_panels = Return flat ∧
    db (redis w') !! "sites:info:1" = Some (RHash stored) ∧
    ∀ field, stored !! field =
             match flat !! field with
             | Some v => Some (Js.ToString v)
             | None => old !! field
             end.
Proof.
  intros w' old.
  assert (@insert keys geo site_without_panels w3
          = (Return "sites:info:1", w')) as E by by vm_compute.
  assert (db (redis w3) !! "sites:info:1" = Some (RHash old)) as Ho
    by by vm_compute.
  split_and!; [done|done|].
  by apply (@insert_merges_fields keys geo site_without_panels w3
              "sites:info:1" w' old).
Defined.

(** The panels of the older record are still there after the insert of a
    record without panels. *)
Example stale_panels :
  match db (redis (@insert keys geo site_without_panels w3).2) !! "sites:info:1"
  with
  | Some (RHash stored) => stored !! "panels" = Some "100"
                           ∧ stored !! "lng" = Some "5"
  | _ => False
  end.
Proof. by vm_compute. Qed.

Lemma insert_succeeds_witness :
  let s := site 4 400 1 1 in
  let c : gmap string value := <["lat" := num 1]> (<["lng" := num 1]> ∅) in
  @KeyGeneratorLaws keys ∧
  plain_site s c ∧
  @geoEncode geo (Js.ToString (default VUndefined (c !! "lng")))
                 (Js.ToString (default VUndefined (c !! "lat"))) = Some 1%Q ∧
  (∀ z, db (redis w3) !! @getSiteHashKey keys (site_id s) ≠ Some (RZSet z)) ∧
  (∀ h, db (redis w3) !! @getSiteGeoKey keys ≠ Some (RHash h)) ∧
  ∃ w', @insert keys geo s w3 = (Return (@getSiteHashKey keys (site_id s)), w').
Proof.
  intros s c.
  assert (plain_site s c) as Hc by apply site_plain.
  assert (@geoEncode geo (Js.ToString (default VUndefined (c !! "lng")))
            (Js.ToString (default VUndefined (c !! "lat"))) = Some 1%Q) as Hg
    by by vm_compute.
  assert (∀ z, db (redis w3) !! @getSiteHashKey keys (site_id s)
               ≠ Some (RZSet z)) as Hk by (intros z; apply three_sites_typed).
  split_and!; [apply keys_laws|done|done|done|apply three_sites_geo_typed|].
  apply (@insert_succeeds keys geo keys_laws s w3 c 1%Q);
    [done|done|done|apply three_sites_geo_typed].
Defined.

Lemma insert_keeps_other_lookups_witness :
  @KeyGeneratorLaws keys ∧
  Js.ToString (num 2) ≠ site_id (site 1 999 5 3) ∧
  (@findById keys (num 2) (@insert keys geo (site 1 999 5 3) w3).2).1
  = (@findById keys (num 2) w3).1.
Proof.
  assert (Js.ToString (num 2) ≠ site_id (site 1 999 5 3)) as Hid
    by by vm_compute.
  split_and!; [apply keys_laws|done|].
  by apply (@insert_keeps_other_lookups keys geo keys_laws).
Defined.

Lemma findByGeo_spec_witness :
  @geoWithin geo (Number.to_string Zero) (Number.to_string Zero)
    (Number.to_string ten) (Js.toLowerCase "KM") = Some near ∧
  (∀ h, db (redis w3) !! @getSiteGeoKey keys ≠ Some (RHash h)) ∧
  @site_keys_typed keys (redis w3) ∧
  @site_records_plain keys (redis w3) ∧
  ∃ ids,
    @findByGeo keys geo Zero Zero ten "KM" w3
      = (Return (omap (@stored_site keys (redis w3)) ids), w3) ∧
    NoDup ids ∧
    ∀ id, id ∈ ids ↔
          ∃ g, @geo_index keys (redis w3) !! id = Some g ∧ near g = true.
Proof.
  assert (@geoWithin geo (Number.to_string Zero) (Number.to_string Zero)
            (Number.to_string ten) (Js.toLowerCase "KM") = Some near) as Hw
    by by vm_compute.
  split_and!;
    [done|apply three_sites_geo_typed|apply three_sites_typed
    |apply three_sites_plain|].
  apply (@findByGeo_spec keys geo Zero Zero ten "KM" w3 near);
    [done|apply three_sites_geo_typed|apply three_sites_typed
    |apply three_sites_plain].
Defined.

(** Sites 1 and 2 are near; site 3 is not. *)
Example findByGeo_example :
  (@findByGeo keys geo Zero Zero ten "KM" w3).1
  = Return [VObj (site 1 100 2 3); VObj (site 2 200 2 3)].
Proof. by vm_compute. Qed.

Lemma findByGeo_rejected_witness :
  @geoWithin geo (Number.to_string Zero) (Number.to_string Zero)
    (Number.to_string ten) (Js.toLowerCase "LY") = None ∧
  ∃ e, @findByGeo keys geo Zero Zero ten "LY" w3 = (Throw e, w3).
Proof.
  assert (@geoWithin geo (Number.to_string Zero) (Number.to_string Zero)
            (Number.to_string ten) (Js.toLowerCase "LY") = None) as Hw
    by by vm_compute.
  split; [done|].
  by apply (@findByGeo_rejected keys geo Zero Zero ten "LY" w3).
Defined.

Lemma findByGeo_within_findAll_witness :
  let near_sites := [VObj (site 1 100 2 3); VObj (site 2 200 2 3)] in
  @site_keys_typed keys (redis w3) ∧
  @site_records_plain keys (redis w3) ∧
  @findByGeo keys geo Zero Zero ten "KM" w3 = (Return near_sites, w3) ∧
  ∃ all, @findAll keys geo w3 = (Return all, w3) ∧
         ∀ v, v ∈ near_sites → v ∈ all.
Proof.
  intros near_sites.
  assert (@findByGeo keys geo Zero Zero ten "KM" w3 = (Return near_sites, w3))
    as E by by vm_compute.
  split_and!; [apply three_sites_typed|apply three_sites_plain|done|].
  apply (@findByGeo_within_findAll keys geo Zero Zero ten "KM" w3 near_sites w3);
    [apply three_sites_typed|apply three_sites_plain|done].
Defined.

Lemma findAll_agrees_with_findById_witness :
  (∀ h, db (redis w3) !! @getSiteGeoKey keys ≠ Some (RHash h)) ∧
  @site_keys_typed keys (redis w3) ∧
  @site_records_plain keys (redis w3) ∧
  ∃ all, @findAll keys geo w3 = (Return all, w3) ∧
    ∀ v, v ∈ all ↔
         ∃ id, is_Some (@geo_index keys (redis w3) !! id) ∧
               @findById keys (VStr id) w3 = (Return v, w3) ∧ v ≠ VNull.
Proof.
  split_and!;
    [apply three_sites_geo_typed|apply three_sites_typed
    |apply three_sites_plain|].
  apply (@findAll_agrees_with_findById keys geo w3);
    [apply three_sites_geo_typed|apply three_sites_typed
    |apply three_sites_plain].
Defined.

Lemma insert_then_findByGeo_witness :
  let s := site 4 400 1 1 in
  let w' := (@insert keys geo s w3).2 in
  @KeyGeneratorLaws keys ∧
  @insert keys geo s w3 = (Return "sites:info:4", w') ∧
  db (redis w3) !! "sites:info:4" = None ∧
  @site_keys_typed keys (redis w3) ∧
  @site_records_plain keys (redis w3) ∧
  @geoWithin geo (Number.to_string Zero) (Number.to_string Zero)
    (Number.to_string ten) (Js.toLowerCase "KM") = Some near ∧
  (∀ g, @geo_index keys (redis w') !! site_id s = Some g → near g = true) ∧
  ∃ found v,
    decode_stored s = Return v ∧
    @findByGeo keys geo Zero Zero ten "KM" w' = (Return found, w') ∧
    v ∈ found.
Proof.
  intros s w'.
  assert (@insert keys geo s w3 = (Return "sites:info:4", w')) as E
    by by vm_compute.
  assert (db (redis w3) !! "sites:info:4" = None) as Hk by by vm_compute.
  assert (@geoWithin geo (Number.to_string Zero) (Number.to_string Zero)
            (Number.to_string ten) (Js.toLowerCase "KM") = Some near) as Hw
    by by vm_compute.
  assert (∀ g, @geo_index keys (redis w') !! site_id s = Some g →
               near g = true) as Hn.
  { intros g Hg. vm_compute in Hg. injection Hg as <-. by vm_compute. }
  split_and!;
    [apply keys_laws|done|done|apply three_sites_typed|apply three_sites_plain
    |done|done|].
  apply (@insert_then_findByGeo keys geo keys_laws s w3 "sites:info:4" w'
           Zero Zero ten "KM" near);
    [done|done|apply three_sites_typed|apply three_sites_plain|done|done].
Defined.

Lemma excess_capacity_nothing_nearby_witness :
  @KeyGeneratorLaws keys ∧
  db (redis w3) !! @temporaryKey keys 0 = None ∧
  db (redis w3) !! @temporaryKey keys 1 = None ∧
  @within_radius keys geo (redis w3) Zero Zero ten (Js.toLowerCase "LY") = ∅ ∧
  ∃ w', @findByGeoWithExcessCapacity keys geo Zero Zero ten "LY" w3
        = (Return [], w') ∧
        db (redis w') = db (redis w3) ∧
        generated w' = S (S (generated w3)).
Proof.
  assert (@within_radius keys geo (redis w3) Zero Zero ten
            (Js.toLowerCase "LY") = ∅) as Hz by by vm_compute.
  split_and!; [apply keys_laws|by vm_compute|by vm_compute|done|].
  apply (@excess_capacity_nothing_nearby keys geo keys_laws
           Zero Zero ten "LY" w3); [by vm_compute|by vm_compute|done].
Defined.

Lemma excess_capacity_within_findByGeo_witness :
  @KeyGeneratorLaws keys ∧
  db (redis w3) !! @temporaryKey keys 0 = None ∧
  db (redis w3) !! @temporaryKey keys 1 = None ∧
  @site_keys_typed keys (redis w3) ∧
  @site_records_plain keys (redis w3) ∧
  ∃ excess w',
    @findByGeoWithExcessCapacity keys geo Zero Zero ten "KM" w3
    = (Return excess, w') ∧
    ∀ v, v ∈ excess →
         ∃ near, @findByGeo keys geo Zero Zero ten "KM" w3 = (Return near, w3)
                 ∧ v ∈ near.
Proof.
  split_and!;
    [apply keys_laws|by vm_compute|by vm_compute|apply three_sites_typed
    |apply three_sites_plain|].
  apply (@excess_capacity_within_findByGeo keys geo keys_laws
           Zero Zero ten "KM" w3);
    [by vm_compute|by vm_compute|apply three_sites_typed
    |apply three_sites_plain].
Defined.

Lemma excess_capacity_calls_independent_witness :
  @KeyGeneratorLaws keys ∧
  @temporaries_fresh keys w3 ∧
  (@findByGeoWithExcessCapacity keys geo Zero Zero ten "KM"
     (@findByGeoWithExcessCapacity keys geo Zero Zero ten "MI" w3).2).1
  = (@findByGeoWithExcessCapacity keys geo Zero Zero ten "KM" w3).1.
Proof.
  split_and!; [apply keys_laws|apply w3_temporaries_fresh|].
  apply (@excess_capacity_calls_independent keys geo keys_laws).
  apply w3_temporaries_fresh.
Defined.

End MoreWitnesses.
